(** * gazcli: the Azure session wrapper of [internal/azure/azure.go]

    A shallow embedding of the three operations of the session
    ([Subscriptions], [RolesForSubscription], [ActiveRoleAssignment]) and of
    the paged listing [roleEligibilitySchedules] they share, followed by the
    properties the specification states about them.

    Go maps are stdpp [gmap]s, nil-able pointers are [option]s, a value
    returned next to an [error] is a pair whose second component is an
    [option error], and every call that leaves the process (a page fetch, a
    create request, a log line) is recorded in a trace. *)

From stdpp Require Import base option list gmap strings pretty.
From Stdlib Require Import ZArith Floats.SpecFloat.

Open Scope Z_scope.

(** ** Go values *)

(** A Go [error]: either built in this package with [errors.New], or handed
    back by one of the libraries the package calls (the Azure SDK, uuid). *)
Inductive error : Type :=
  | errors_New (text : string)
  | sdk_error (text : string).

Global Instance error_eq_dec : EqDecision error.
Proof. solve_decision. Defined.

(** The three messages the package creates; the names are the ones the
    specification's error taxonomy uses. *)
Definition DataIntegrityError : error := errors_New "unexptected nil value returned".
Definition SubscriptionNotFound : error := errors_New "subscription not found".
Definition RoleNotFound : error := errors_New "Role Eligibility Schedule not found".

(** [time.Duration] is an int64 count of nanoseconds. *)
Definition Duration : Type := Z.
Definition Nanosecond : Duration := 1.
Definition Second : Duration := 1000000000 * Nanosecond.
Definition Minute : Duration := 60 * Second.

Definition MinInt64 : Z := - 2 ^ 63.
Definition MaxInt64 : Z := 2 ^ 63 - 1.
Definition int64 (z : Z) : Prop := MinInt64 <= z <= MaxInt64.

(** [time.Time], as nanoseconds since the epoch. *)
Definition Time : Type := Z.

(** One step of a pager: [NextPage] returns a page of pointers, or fails. *)
Inductive PageResult (A : Type) : Type :=
  | PageOk (Value : list (option A))
  | PageErr (err : error).
Arguments PageOk {A} Value.
Arguments PageErr {A} err.

(** A pager is the finite sequence of answers its successive [NextPage]
    calls give; [More] holds while the sequence is not exhausted. *)
Definition Pager (A : Type) : Type := list (PageResult A).

(** ** The SDK records the package reads and builds *)

Module armsubscription.

Definition SubscriptionState : Type := string.
Definition SubscriptionStateEnabled : SubscriptionState := "Enabled".

Record Subscription : Type := {
  DisplayName : option string;
  SubscriptionID : option string;
  State : option SubscriptionState
}.

End armsubscription.

Module armauthorization.

Record ExpandedPropertiesRoleDefinition : Type := {
  DisplayName : option string
}.

Record ExpandedProperties : Type := {
  RoleDefinition : option ExpandedPropertiesRoleDefinition
}.

Record RoleEligibilityScheduleProperties : Type := {
  ExpandedProps : option ExpandedProperties;
  RoleDefinitionID : option string
}.

Record RoleEligibilitySchedule : Type := {
  ID : option string;
  Properties : option RoleEligibilityScheduleProperties
}.

Inductive RequestType : Type :=
  | RequestTypeAdminAssign
  | RequestTypeAdminExtend
  | RequestTypeAdminRemove
  | RequestTypeAdminRenew
  | RequestTypeAdminUpdate
  | RequestTypeSelfActivate
  | RequestTypeSelfDeactivate
  | RequestTypeSelfExtend
  | RequestTypeSelfRenew.

Inductive Type_ : Type :=
  | TypeAfterDateTime
  | TypeAfterDuration
  | TypeNoExpiration.

Record ScheduleInfoExpiration : Type := {
  Type' : option Type_;
  Duration' : option string
}.

Record ScheduleInfo : Type := {
  StartDateTime : option Time;
  Expiration : option ScheduleInfoExpiration
}.

Record RoleAssignmentScheduleRequestProperties : Type := {
  PrincipalID : option string;
  ReqType : option RequestType;
  ReqRoleDefinitionID : option string;
  Justification : option string;
  SchedInfo : option ScheduleInfo;
  LinkedRoleEligibilityScheduleID : option string
}.

Record RoleAssignmentScheduleRequest : Type := {
  ReqProperties : option RoleAssignmentScheduleRequestProperties
}.

(** The response of the create call, reduced to what the package does with
    it: the outcome of [json.MarshalIndent] on it. *)
Record CreateResponse : Type := {
  MarshalIndent : option string
}.

End armauthorization.

(** ** Effects *)

(** What an operation does outside the process, in the order it does it. *)
Inductive Event : Type :=
  | SubscriptionsNextPage
  | NewListForScopePager (scope : string)
  | SchedulesNextPage (scope : string)
  | Create (scope name : string)
           (req : armauthorization.RoleAssignmentScheduleRequest)
  | LogPrintf (line : string).

(** The answers of everything outside the package: the SDK constructors,
    the management API, the clock, the UUID generator and the order in
    which the Go runtime walks a map. *)
Record World : Type := {
  NewDefaultAzureCredential : option error;
  NewSubscriptionsClient : option error;
  NewListPager : Pager armsubscription.Subscription;
  NewRoleEligibilitySchedulesClient : option error;
  ListForScope : string → Pager armauthorization.RoleEligibilitySchedule;
  rangeSeed : list nat;
  Now : Time;
  NewUUID : error + string;
  NewRoleAssignmentScheduleRequestsClient : option error;
  CreateResult : string → string →
                 armauthorization.RoleAssignmentScheduleRequest →
                 error + armauthorization.CreateResponse
}.

(** A computation returns its value together with the events it caused. *)
Definition M (A : Type) : Type := (A * list Event)%type.

Global Instance M_ret : MRet M := λ A a, (a, []).
Global Instance M_bind : MBind M := λ A B f m,
  let '(a, t1) := m in let '(b, t2) := f a in (b, t1 ++ t2).

Definition emit (e : Event) : M unit := (tt, [e]).

Definition result {A} (m : M A) : A := m.1.
Definition trace {A} (m : M A) : list Event := m.2.

(** ** Walking a Go map *)

(** [for k := range m] visits every key once, in an order the runtime
    picks.  The order is driven by a seed taken from the world: at each step
    the seed selects which of the remaining keys comes next. *)
Fixpoint take_nth {A} (n : nat) (l : list A) {struct l} : option (A * list A) :=
  match l with
  | [] => None
  | x :: l' =>
    match n with
    | O => Some (x, l')
    | S n' =>
      match take_nth n' l' with
      | Some (y, r) => Some (y, x :: r)
      | None => None
      end
    end
  end.

Fixpoint range_order {A} (seed : list nat) (l : list A) : list A :=
  match seed with
  | [] => l
  | n :: seed' =>
    match take_nth (n `mod` length l)%nat l with
    | Some (x, r) => x :: range_order seed' r
    | None => l
    end
  end.

Definition range_keys {V} (seed : list nat) (m : gmap string V) : list string :=
  range_order seed (map_to_list m).*1.

(** ** Duration to whole minutes *)

Module float64.

Definition prec : Z := 53.
Definition emax : Z := 1024.

Definition t : Type := spec_float.

(** [float64(i)] for an integer [i]. *)
Definition of_int (i : Z) : t := binary_normalize prec emax i 0 false.

Definition add : t → t → t := SFadd prec emax.
Definition div : t → t → t := SFdiv prec emax.

(** [int(f)]: the fraction is discarded (truncation towards zero).  A
    value that does not fit (or is not a number) converts to the smallest
    int64, as on amd64 and arm64. *)
Definition to_int (f : t) : Z :=
  match f with
  | S754_zero _ => 0
  | S754_finite s m e =>
    let a := match e with
             | Z0 => Zpos m
             | Zpos p => Z.shiftl (Zpos m) e
             | Zneg p => Z.shiftr (Zpos m) (Zpos p)
             end in
    let z := cond_Zopp s a in
    if bool_decide (MinInt64 <= z <= MaxInt64) then z else MinInt64
  | _ => MinInt64
  end.

End float64.

(** [time.Duration.Minutes]:
    [min := d / Minute; nsec := d % Minute;
     return float64(min) + float64(nsec)/(60*1e9)],
    with Go's integer division and remainder, which truncate. *)
Definition Minutes (d : Duration) : float64.t :=
  let min := Z.quot d Minute in
  let nsec := Z.rem d Minute in
  float64.add (float64.of_int min)
              (float64.div (float64.of_int nsec) (float64.of_int (60 * 1000000000))).

(** [fmt.Sprintf("PT%dM", int(duration.Minutes()))] *)
Definition expirationDuration (duration : Duration) : string :=
  "PT" +:+ pretty (float64.to_int (Minutes duration)) +:+ "M".

(** ** Vocabulary of rounding *)

(** The float a rounded mantissa becomes: itself, or the next power of two
    when rounding carried into a 54th bit. *)
Definition renorm (sx : bool) (rnd : positive) (e : Z) : spec_float :=
  if Zpos rnd <? 2 ^ 53 then S754_finite sx rnd e
  else S754_finite sx (2 ^ 52)%positive (e + 1).

(** Whether the bits a mantissa loses when it is cut to 53 bits allow
    rounding up. *)
Definition round_bit (m : positive) (l : location) : Prop :=
  let n := Zpos (digits2_pos m) - 53 in
  if decide (n = 0) then l = loc_Inexact Eq ∨ l = loc_Inexact Gt
  else Z.odd (Zpos m / 2 ^ (n - 1)) = true.

(** ** The session and its operations *)

Definition defaultTimeout : Duration := 30 * Second.

(** [type subscriptionID string] *)
Abbreviation subscriptionID := string.

Record Session : Type := {
  timeout : Duration;
  principalID : string
}.

Section Operations.

Context (w : World).

Import armsubscription armauthorization.

Definition NewSession (principalID : string) : option Session * option error :=
  match NewDefaultAzureCredential w with
  | Some err => (None, Some err)
  | None => (Some {| timeout := defaultTimeout; principalID := principalID |}, None)
  end.

(** The body of [for _, v := range nextResult.Value] in [Subscriptions]. *)
Fixpoint Subscriptions_range (Value : list (option Subscription))
    (subs : gmap string subscriptionID)
    : M (gmap string subscriptionID * option error) :=
  match Value with
  | [] => mret (subs, None)
  | v :: Value' =>
    match v with
    | Some {| armsubscription.DisplayName := Some name;
              SubscriptionID := Some id;
              State := Some state |} =>
      if bool_decide (state ≠ SubscriptionStateEnabled) then
        Subscriptions_range Value' subs
      else
        match subs !! name with
        | Some _ =>
          emit (LogPrintf ("WARNING: duplicate subscription ignored: " +:+ name)) ;;
          Subscriptions_range Value' subs
        | None =>
          Subscriptions_range Value' (<[name := id]> subs)
        end
    | _ => mret (subs, Some DataIntegrityError)
    end
  end.

(** [for pager.More() { ... }] in [Subscriptions]. *)
Fixpoint Subscriptions_pages (pager : Pager Subscription)
    (subs : gmap string subscriptionID)
    : M (gmap string subscriptionID * option error) :=
  match pager with
  | [] => mret (subs, None)
  | nextResult :: pager' =>
    emit SubscriptionsNextPage ;;
    match nextResult with
    | PageErr err => mret (subs, Some err)
    | PageOk Value =>
      r ← Subscriptions_range Value subs ;
      match r with
      | (subs', Some err) => mret (subs', Some err)
      | (subs', None) => Subscriptions_pages pager' subs'
      end
    end
  end.

Definition Subscriptions (s : Session)
    : M (gmap string subscriptionID * option error) :=
  match NewSubscriptionsClient w with
  | Some err => mret (∅, Some err)
  | None => Subscriptions_pages (NewListPager w) ∅
  end.

(** The body of [for _, v := range nextResult.Value] in
    [roleEligibilitySchedules].  The map holds the pointers [v] themselves. *)
Fixpoint roleEligibilitySchedules_range
    (Value : list (option RoleEligibilitySchedule))
    (r : gmap string (option RoleEligibilitySchedule))
    : M (gmap string (option RoleEligibilitySchedule) * option error) :=
  match Value with
  | [] => mret (r, None)
  | v :: Value' =>
    match v with
    | Some {| Properties := Some {| ExpandedProps := Some {| RoleDefinition :=
                Some {| armauthorization.DisplayName := Some name |} |} |} |} =>
      match r !! name with
      | Some _ =>
        emit (LogPrintf ("WARNING: duplicate eligiblity ignored for role " +:+ name)) ;;
        roleEligibilitySchedules_range Value' r
      | None =>
        roleEligibilitySchedules_range Value' (<[name := v]> r)
      end
    | _ => mret (r, Some DataIntegrityError)
    end
  end.

(** [for pager.More() { ... }] in [roleEligibilitySchedules]. *)
Fixpoint roleEligibilitySchedules_pages (scope : string)
    (pager : Pager RoleEligibilitySchedule)
    (r : gmap string (option RoleEligibilitySchedule))
    : M (gmap string (option RoleEligibilitySchedule) * option error) :=
  match pager with
  | [] => mret (r, None)
  | nextResult :: pager' =>
    emit (SchedulesNextPage scope) ;;
    match nextResult with
    | PageErr err => mret (r, Some err)
    | PageOk Value =>
      x ← roleEligibilitySchedules_range Value r ;
      match x with
      | (r', Some err) => mret (r', Some err)
      | (r', None) => roleEligibilitySchedules_pages scope pager' r'
      end
    end
  end.

Definition roleEligibilitySchedules (s : Session) (scope : string)
    : M (gmap string (option RoleEligibilitySchedule) * option error) :=
  match NewRoleEligibilitySchedulesClient w with
  | Some err => mret (∅, Some err)
  | None =>
    emit (NewListForScopePager scope) ;;
    roleEligibilitySchedules_pages scope (ListForScope w scope) ∅
  end.

Definition RolesForSubscription (s : Session) (subscriptionName : string)
    : M (list string * option error) :=
  x ← Subscriptions s ;
  match x with
  | (_, Some err) => mret ([], Some err)
  | (subs, None) =>
    match subs !! subscriptionName with
    | None => mret ([], Some SubscriptionNotFound)
    | Some sub =>
      y ← roleEligibilitySchedules s ("/subscriptions/" +:+ sub) ;
      match y with
      | (_, Some err) => mret ([], Some err)
      | (res, None) => mret (range_keys (rangeSeed w) res, None)
      end
    end
  end.

(** The request [ActiveRoleAssignment] builds once the schedule record has
    passed the nil checks. *)
Definition buildRequest (s : Session) (re_ID re_RoleDefinitionID : option string)
    (justifiction : string) (duration : Duration) (startTime : Time)
    : RoleAssignmentScheduleRequest :=
  let requestType := RequestTypeSelfActivate in
  let expirationType := TypeAfterDuration in
  let expirationDuration := expirationDuration duration in
  {| ReqProperties := Some {|
       PrincipalID := Some (principalID s);
       ReqType := Some requestType;
       ReqRoleDefinitionID := re_RoleDefinitionID;
       Justification := Some justifiction;
       SchedInfo := Some {|
         StartDateTime := Some startTime;
         Expiration := Some {|
           Type' := Some expirationType;
           Duration' := Some expirationDuration |} |};
       LinkedRoleEligibilityScheduleID := re_ID |} |}.

Definition LF : string := String (Ascii.ascii_of_nat 10) EmptyString.

Definition ActiveRoleAssignment (s : Session)
    (subscriptionName roleDisplayName justifiction : string)
    (duration : Duration) : M (option error) :=
  x ← Subscriptions s ;
  match x with
  | (_, Some err) => mret (Some err)
  | (subs, None) =>
    match subs !! subscriptionName with
    | None => mret (Some SubscriptionNotFound)
    | Some subscriptionID =>
      y ← roleEligibilitySchedules s ("subscriptions/" +:+ subscriptionID) ;
      match y with
      | (_, Some err) => mret (Some err)
      | (res, None) =>
        match res !! roleDisplayName with
        | None => mret (Some RoleNotFound)
        | Some re =>
          match re with
          | Some {| ID := Some id;
                    Properties := Some {|
                      ExpandedProps := Some {| RoleDefinition := Some _ |};
                      RoleDefinitionID := Some rdid |} |} =>
            let startTime := Now w in
            let req := buildRequest s (Some id) (Some rdid)
                                    justifiction duration startTime in
            let scope := "/subscriptions/" +:+ subscriptionID in
            match NewUUID w with
            | inl err => mret (Some err)
            | inr guid =>
              match NewRoleAssignmentScheduleRequestsClient w with
              | Some err => mret (Some err)
              | None =>
                emit (Create scope guid req) ;;
                match CreateResult w scope guid req with
                | inl err => mret (Some err)
                | inr resp =>
                  match MarshalIndent resp with
                  | Some b => emit (LogPrintf (b +:+ LF)) ;; mret None
                  | None => mret None
                  end
                end
              end
            end
          | _ => mret (Some DataIntegrityError)
          end
        end
      end
    end
  end.

End Operations.

(** ** The commands of [internal/cli/cli.go] *)

Module cli.

(** What an action reads of its [*cli.Context]: the value of the [userid]
    flag (empty when the flag is not given) and the positional arguments. *)
Record Context : Type := {
  userid : string;
  Args : list string
}.

(** [Args.Get(n)]: the n-th argument, or the empty string when there are
    not that many. *)
Definition Get (args : list string) (n : nat) : string := default "" (args !! n).

(** [Args.Len()] *)
Definition Len (args : list string) : Z := Z.of_nat (length args).

Definition UseridNotSet : error := errors_New "userid flag not set".
Definition NotEnoughArguments : error := errors_New "not enough arguments".

(** Calling a method of the nil session [NewSession] would have returned
    without an error: the run-time panic of the dereference. *)
Definition nilSession : error :=
  sdk_error "runtime error: invalid memory address or nil pointer dereference".

Section Actions.

Context (w : World).

(** [time.ParseDuration], of the standard library. *)
Variable ParseDuration : string → error + Duration.

(** The action of [subscriptions]: the value is the lines printed on
    standard output, in order, and the error returned. *)
Definition subscriptionsAction (c : Context) : M (list string * option error) :=
  match NewSession w (userid c) with
  | (_, Some err) => mret ([], Some err)
  | (None, None) => mret ([], Some nilSession)
  | (Some s, None) =>
    x ← Subscriptions w s ;
    match x with
    | (_, Some err) => mret ([], Some err)
    | (subs, None) => mret (range_keys (rangeSeed w) subs, None)
    end
  end.

(** The action of [roles]. *)
Definition rolesAction (c : Context) : M (list string * option error) :=
  match NewSession w (userid c) with
  | (_, Some err) => mret ([], Some err)
  | (None, None) => mret ([], Some nilSession)
  | (Some s, None) =>
    x ← RolesForSubscription w s (Get (Args c) 0) ;
    match x with
    | (_, Some err) => mret ([], Some err)
    | (roles, None) => mret (roles, None)
    end
  end.

(** The action of [activate]; it prints nothing. *)
Definition activateAction (c : Context) : M (option error) :=
  let user := userid c in
  if bool_decide (user = "") then mret (Some UseridNotSet)
  else
    let args := Args c in
    if bool_decide (Len args < 3) then mret (Some NotEnoughArguments)
    else
      match NewSession w user with
      | (_, Some err) => mret (Some err)
      | (None, None) => mret (Some nilSession)
      | (Some s, None) =>
        let subID := Get args 0 in
        let roleDisplayName := Get args 1 in
        let justifiction := Get args 2 in
        let duration := 60 * Minute in
        if bool_decide (Get args 3 ≠ "") then
          match ParseDuration (Get args 3) with
          | inl err => mret (Some err)
          | inr duration =>
            ActiveRoleAssignment w s subID roleDisplayName justifiction duration
          end
        else
          ActiveRoleAssignment w s subID roleDisplayName justifiction duration
      end.

End Actions.

End cli.

(** ** Vocabulary of the properties *)

(** All the entries a pager holds, in page order. *)
Definition pageValue {A} (p : PageResult A) : list (option A) :=
  match p with
  | PageOk Value => Value
  | PageErr _ => []
  end.

Definition entries {A} (pager : Pager A) : list (option A) :=
  concat (pageValue <$> pager).

(** What a listing loop does with one entry: stop on it, step over it, or
    offer it to the map under a name. *)
Inductive Entry (V : Type) : Type :=
  | Malformed
  | Skipped
  | Named (name : string) (x : V).
Arguments Malformed {V}.
Arguments Skipped {V}.
Arguments Named {V} name x.

Definition subscriptionEntry (v : option armsubscription.Subscription)
    : Entry subscriptionID :=
  match v with
  | Some {| armsubscription.DisplayName := Some name;
            armsubscription.SubscriptionID := Some id;
            armsubscription.State := Some state |} =>
    if bool_decide (state ≠ armsubscription.SubscriptionStateEnabled)
    then Skipped else Named name id
  | _ => Malformed
  end.

Definition scheduleEntry (v : option armauthorization.RoleEligibilitySchedule)
    : Entry (option armauthorization.RoleEligibilitySchedule) :=
  match v with
  | Some {| armauthorization.Properties := Some {|
              armauthorization.ExpandedProps := Some {|
                armauthorization.RoleDefinition := Some {|
                  armauthorization.DisplayName := Some name |} |} |} |} =>
    Named name v
  | _ => Malformed
  end.

Definition subscriptionWarning (name : string) : string :=
  "WARNING: duplicate subscription ignored: " +:+ name.
Definition scheduleWarning (name : string) : string :=
  "WARNING: duplicate eligiblity ignored for role " +:+ name.

(** The first value listed under [name] in an association list. *)
Fixpoint first_occurrence {V} (name : string) (l : list (string * V)) : option V :=
  match l with
  | [] => None
  | (k, x) :: l' => if bool_decide (k = name) then Some x else first_occurrence name l'
  end.

(** The names that come up again after [seen], one per repeat, in order. *)
Fixpoint repeats (seen : gset string) (names : list string) : list string :=
  match names with
  | [] => []
  | n :: names' =>
    if bool_decide (n ∈ seen) then n :: repeats seen names'
    else repeats ({[n]} ∪ seen) names'
  end.

(** The lines a trace logs. *)
Definition logged (t : list Event) : list string :=
  omap (λ e, match e with LogPrintf line => Some line | _ => None end) t.

Definition isCreate (e : Event) : bool :=
  match e with Create _ _ _ => true | _ => false end.

Definition isSchedulesCall (e : Event) : bool :=
  match e with
  | NewListForScopePager _ | SchedulesNextPage _ => true
  | _ => false
  end.

Section Aggregation.

(** The loop both listings run, over the classification of an entry. *)
Context {A V : Type}.
Variable classify : option A → Entry V.
Variable warning : string → string.
Variable nextPage : Event.

Definition wellFormed (v : option A) : bool :=
  match classify v with Malformed => false | _ => true end.

Definition named (Value : list (option A)) : list (string * V) :=
  omap (λ v, match classify v with Named k x => Some (k, x) | _ => None end) Value.

Definition cleanPage (p : PageResult A) : bool :=
  match p with
  | PageOk Value => forallb wellFormed Value
  | PageErr _ => false
  end.

Definition clean (pager : Pager A) : bool := forallb cleanPage pager.

Fixpoint aggregate_range (Value : list (option A)) (m : gmap string V)
    : M (gmap string V * option error) :=
  match Value with
  | [] => mret (m, None)
  | v :: Value' =>
    match classify v with
    | Malformed => mret (m, Some DataIntegrityError)
    | Skipped => aggregate_range Value' m
    | Named k x =>
      match m !! k with
      | Some _ => emit (LogPrintf (warning k)) ;; aggregate_range Value' m
      | None => aggregate_range Value' (<[k := x]> m)
      end
    end
  end.

Fixpoint aggregate_pages (pager : Pager A) (m : gmap string V)
    : M (gmap string V * option error) :=
  match pager with
  | [] => mret (m, None)
  | nextResult :: pager' =>
    emit nextPage ;;
    match nextResult with
    | PageErr err => mret (m, Some err)
    | PageOk Value =>
      r ← aggregate_range Value m ;
      match r with
      | (m', Some err) => mret (m', Some err)
      | (m', None) => aggregate_pages pager' m'
      end
    end
  end.

Definition keep_first (m : gmap string V) (kx : string * V) : gmap string V :=
  match m !! kx.1 with
  | Some _ => m
  | None => <[kx.1 := kx.2]> m
  end.

Definition firstWins (l : list (string * V)) (m : gmap string V) : gmap string V :=
  foldl keep_first m l.

End Aggregation.

Arguments named : simpl never.
Arguments wellFormed : simpl never.
Arguments firstWins : simpl never.
Arguments logged : simpl never.

(** An entry one of whose pointers is nil. *)
Definition nilField (v : option armsubscription.Subscription) : Prop :=
  match v with
  | None => True
  | Some v' =>
    armsubscription.DisplayName v' = None ∨
    armsubscription.SubscriptionID v' = None ∨
    armsubscription.State v' = None
  end.

(** The scopes for which a trace opens an eligibility-schedule pager. *)
Definition scopesListed (t : list Event) : list string :=
  omap (λ e, match e with NewListForScopePager scope => Some scope | _ => None end) t.
Arguments scopesListed : simpl never.

(** A schedule record (or nil pointer) without one of the fields
    [ActiveRoleAssignment] reads or checks before it builds the request. *)
Definition lacksRequiredField
    (re : option armauthorization.RoleEligibilitySchedule) : Prop :=
  match re with
  | None => True
  | Some r =>
    armauthorization.ID r = None ∨
    match armauthorization.Properties r with
    | None => True
    | Some p =>
      armauthorization.RoleDefinitionID p = None ∨
      match armauthorization.ExpandedProps p with
      | None => True
      | Some ep => armauthorization.RoleDefinition ep = None
      end
    end
  end.

(** The duration string a request carries, through its pointers. *)
Definition requestDuration
    (req : armauthorization.RoleAssignmentScheduleRequest) : option string :=
  p ← armauthorization.ReqProperties req ;
  info ← armauthorization.SchedInfo p ;
  expiration ← armauthorization.Expiration info ;
  armauthorization.Duration' expiration.

(** A schedule entry one of whose pointers on the way to the display name of
    its role is nil. *)
Definition nilRoleName (v : option armauthorization.RoleEligibilitySchedule) : Prop :=
  match v with
  | None => True
  | Some r =>
    match armauthorization.Properties r with
    | None => True
    | Some p =>
      match armauthorization.ExpandedProps p with
      | None => True
      | Some ep =>
        match armauthorization.RoleDefinition ep with
        | None => True
        | Some rd => armauthorization.DisplayName rd = None
        end
      end
    end
  end.



(** The create requests of a trace. *)
Definition creates (t : list Event) : list Event := filter (λ e, isCreate e = true) t.

(** ** Sample worlds *)

Module Sample.

Import armsubscription armauthorization.

Definition sub (name id state : string) : option Subscription :=
  Some {| armsubscription.DisplayName := Some name;
          SubscriptionID := Some id;
          State := Some state |}.

Definition sched (id roleDefinitionID name : string)
    : option RoleEligibilitySchedule :=
  Some {| ID := Some id;
          Properties := Some {|
            ExpandedProps := Some {| RoleDefinition :=
              Some {| armauthorization.DisplayName := Some name |} |};
            RoleDefinitionID := Some roleDefinitionID |} |}.

(** A schedule the provider returned without its own identifier. *)
Definition schedNoID (roleDefinitionID name : string)
    : option RoleEligibilitySchedule :=
  Some {| ID := None;
          Properties := Some {|
            ExpandedProps := Some {| RoleDefinition :=
              Some {| armauthorization.DisplayName := Some name |} |};
            RoleDefinitionID := Some roleDefinitionID |} |}.

Definition world (subs : Pager Subscription)
    (scheds : Pager RoleEligibilitySchedule) : World :=
  {| NewDefaultAzureCredential := None;
     NewSubscriptionsClient := None;
     NewListPager := subs;
     NewRoleEligibilitySchedulesClient := None;
     ListForScope := λ _, scheds;
     rangeSeed := [1%nat];
     Now := 1700000000000000000;
     NewUUID := inr "6ba7b810-9dad-11d1-80b4-00c04fd430c8";
     NewRoleAssignmentScheduleRequestsClient := None;
     CreateResult := λ _ _ _, inr {| MarshalIndent := Some "{}" |} |}.

Definition subscriptions : Pager Subscription :=
  [ PageOk [sub "Prod" "sub-1" "Enabled"; sub "Old" "sub-0" "Disabled"];
    PageOk [sub "Prod" "sub-2" "Enabled"; sub "Dev" "sub-3" "Enabled"] ].

Definition schedules : Pager RoleEligibilitySchedule :=
  [ PageOk [sched "e1" "rd1" "Contributor"; sched "e2" "rd2" "Reader"];
    PageOk [sched "e3" "rd3" "Reader"] ].

Definition w : World := world subscriptions schedules.

Definition session : Session :=
  {| timeout := defaultTimeout; principalID := "principal-0" |}.

(** A disabled subscription whose display name is missing. *)
Definition disabledNoName : option Subscription :=
  Some {| armsubscription.DisplayName := None;
          SubscriptionID := Some "sub-9";
          State := Some "Disabled" |}.

(** The listing meets the malformed entry on its second page. *)
Definition brokenSubscriptions : Pager Subscription :=
  [ PageOk [sub "Prod" "sub-1" "Enabled"];
    PageOk [sub "Dev" "sub-3" "Enabled"; disabledNoName; sub "Test" "sub-4" "Enabled"];
    PageOk [sub "Late" "sub-5" "Enabled"] ].

(** The second page fetch of the listing fails. *)
Definition failingSubscriptions : Pager Subscription :=
  [ PageOk [sub "Prod" "sub-1" "Enabled"];
    PageErr (sdk_error "context deadline exceeded");
    PageOk [sub "Late" "sub-5" "Enabled"] ].

(** The eligibility schedule of "Reader" comes without its identifier. *)
Definition schedulesNoID : Pager RoleEligibilitySchedule :=
  [ PageOk [sched "e1" "rd1" "Contributor"; schedNoID "rd2" "Reader"] ].

(** 262144 minutes and 59.999999999 seconds. *)
Definition almostNextMinute : Duration := 2 ^ 18 * Minute + (Minute - Nanosecond).

(** The sample world with a UUID generator that fails. *)
Definition noUUID : World :=
  {| NewDefaultAzureCredential := None;
     NewSubscriptionsClient := None;
     NewListPager := subscriptions;
     NewRoleEligibilitySchedulesClient := None;
     ListForScope := λ _, schedules;
     rangeSeed := [1%nat];
     Now := 1700000000000000000;
     NewUUID := inl (sdk_error "uuid: clock sequence unavailable");
     NewRoleAssignmentScheduleRequestsClient := None;
     CreateResult := λ _ _ _, inr {| MarshalIndent := Some "{}" |} |}.

(** The sample world without a usable credential. *)
Definition noCredential : World :=
  {| NewDefaultAzureCredential := Some (sdk_error "DefaultAzureCredential: failed to acquire a token");
     NewSubscriptionsClient := None;
     NewListPager := subscriptions;
     NewRoleEligibilitySchedulesClient := None;
     ListForScope := λ _, schedules;
     rangeSeed := [1%nat];
     Now := 1700000000000000000;
     NewUUID := inr "6ba7b810-9dad-11d1-80b4-00c04fd430c8";
     NewRoleAssignmentScheduleRequestsClient := None;
     CreateResult := λ _ _ _, inr {| MarshalIndent := Some "{}" |} |}.

(** A duration parser that knows the two spellings the samples use. *)
Definition parseDuration (text : string) : error + Duration :=
  if bool_decide (text = "90m") then inr (90 * Minute)
  else if bool_decide (text = "30s") then inr (30 * Second)
  else inr 0.

(** A duration parser that rejects everything. *)
Definition rejectDuration (text : string) : error + Duration :=
  inl (sdk_error ("time: invalid duration " +:+ text)).

(** The provider drops the connection while the schedules are listed. *)
Definition failingSchedules : Pager RoleEligibilitySchedule :=
  [ PageOk [sched "e1" "rd1" "Contributor"];
    PageErr (sdk_error "context deadline exceeded");
    PageOk [sched "e2" "rd2" "Reader"] ].

(** A schedule without the display name of its role, on the second page. *)
Definition brokenSchedules : Pager RoleEligibilitySchedule :=
  [ PageOk [sched "e1" "rd1" "Contributor"];
    PageOk [sched "e2" "rd2" "Reader";
            Some {| ID := Some "e3";
                    Properties := Some {|
                      ExpandedProps := Some {| RoleDefinition :=
                        Some {| armauthorization.DisplayName := None |} |};
                      RoleDefinitionID := Some "rd3" |} |};
            sched "e4" "rd4" "Owner"] ].

End Sample.

(** ** The aggregation loop *)

Section AggregationFacts.

Context {A V : Type}.
Variable classify : option A → Entry V.
Variable warning : string → string.
Variable nextPage : Event.
Hypothesis nextPage_silent : logged [nextPage] = [].

Abbreviation wellFormed := (wellFormed classify).
Abbreviation named := (named classify).
Abbreviation clean := (clean classify).
Abbreviation aggregate_range := (aggregate_range classify warning).
Abbreviation aggregate_pages := (aggregate_pages classify warning nextPage).

(** The monad. *)

Lemma bind_run {X Y} (m : M X) (f : X → M Y) :
  m ≫= f = ((f m.1).1, m.2 ++ (f m.1).2).
Proof.
  destruct m as [a t1]. unfold mbind, M_bind. simpl.
  by destruct (f a).
Qed.

Lemma emit_run {Y} (e : Event) (k : M Y) :
  (emit e ;; k) = (k.1, e :: k.2).
Proof. rewrite bind_run. done. Qed.

Lemma ret_run {X} (a : X) : (mret a : M X) = (a, []).
Proof. done. Qed.

Lemma logged_app (t1 t2 : list Event) : logged (t1 ++ t2) = logged t1 ++ logged t2.
Proof. unfold logged. apply omap_app. Qed.

Lemma firstWins_lookup (l : list (string * V)) (m : gmap string V) (k : string) :
  firstWins l m !! k =
  match m !! k with
  | Some x => Some x
  | None => first_occurrence k l
  end.
Proof.
  unfold firstWins. revert m. induction l as [|[k' x] l IH]; intros m; simpl.
  - by destruct (m !! k).
  - rewrite IH. unfold keep_first. simpl.
    destruct (m !! k') eqn:Hk'.
    + destruct (m !! k) eqn:Hk; [done|].
      case_bool_decide; [congruence | done].
    + destruct (decide (k' = k)) as [->|Hne].
      * rewrite lookup_insert_eq, Hk'. by rewrite bool_decide_eq_true_2.
      * rewrite lookup_insert_ne by done.
        by rewrite bool_decide_eq_false_2.
Qed.

Lemma named_cons (v : option A) (Value : list (option A)) :
  named (v :: Value) =
  match classify v with
  | Named k x => (k, x) :: named Value
  | _ => named Value
  end.
Proof. unfold named. simpl. by destruct (classify v). Qed.

Lemma named_app (l1 l2 : list (option A)) :
  named (l1 ++ l2) = named l1 ++ named l2.
Proof. unfold named. apply omap_app. Qed.

Lemma aggregate_range_cons (v : option A) (Value : list (option A))
    (m : gmap string V) :
  aggregate_range (v :: Value) m =
  match classify v with
  | Malformed => (m, Some DataIntegrityError, [])
  | Skipped => aggregate_range Value m
  | Named k x =>
    match m !! k with
    | Some _ => ((aggregate_range Value m).1,
                 LogPrintf (warning k) :: (aggregate_range Value m).2)
    | None => aggregate_range Value (<[k := x]> m)
    end
  end.
Proof.
  simpl. destruct (classify v) as [| |k x]; try done.
  destruct (m !! k); [|done]. change (M_bind ?f ?c) with (c ≫= f).
  apply emit_run.
Qed.

(** A page without malformed entries is aggregated whole: the map keeps
    the first value of every name and each repeat is logged. *)
Lemma aggregate_range_clean (Value : list (option A)) (m : gmap string V) :
  forallb wellFormed Value = true →
  aggregate_range Value m =
  ((firstWins (named Value) m, None),
   LogPrintf <$> (warning <$> repeats (dom m) (named Value).*1)).
Proof.
  revert m. induction Value as [|v Value IH]; intros m Hwf; [done|].
  simpl in Hwf. apply andb_prop in Hwf as [Hv Hwf].
  rewrite aggregate_range_cons, named_cons. unfold wellFormed in Hv.
  destruct (classify v) as [| |k x]; [done | by apply IH |].
  unfold firstWins. simpl. unfold keep_first. simpl.
  destruct (m !! k) eqn:Hk.
  - rewrite IH by done. simpl.
    rewrite bool_decide_eq_true_2; [done|].
    apply elem_of_dom. eauto.
  - rewrite IH by done.
    rewrite bool_decide_eq_false_2 by (by apply not_elem_of_dom).
    by rewrite dom_insert_L.
Qed.

(** The loop stops on the first malformed entry, with what it had. *)
Lemma aggregate_range_stop (vs vs' : list (option A)) (bad : option A)
    (m : gmap string V) :
  forallb wellFormed vs = true →
  wellFormed bad = false →
  aggregate_range (vs ++ bad :: vs') m =
  (((aggregate_range vs m).1.1, Some DataIntegrityError),
   (aggregate_range vs m).2).
Proof.
  revert m. induction vs as [|v vs IH]; intros m Hwf Hbad.
  - rewrite app_nil_l, aggregate_range_cons.
    unfold wellFormed in Hbad. by destruct (classify bad).
  - simpl in Hwf. apply andb_prop in Hwf as [Hv Hwf].
    rewrite <- app_comm_cons, !aggregate_range_cons. unfold wellFormed in Hv.
    destruct (classify v) as [| |k x]; [done | by apply IH |].
    destruct (m !! k).
    + rewrite IH by done. done.
    + by apply IH.
Qed.

Lemma aggregate_range_error (Value : list (option A)) (m : gmap string V) :
  (aggregate_range Value m).1.2 =
  if forallb wellFormed Value then None else Some DataIntegrityError.
Proof.
  revert m. induction Value as [|v Value IH]; intros m; [done|].
  rewrite aggregate_range_cons. simpl. unfold wellFormed at 1.
  destruct (classify v) as [| |k x]; simpl; [done | apply IH |].
  destruct (m !! k); apply IH.
Qed.

Lemma aggregate_pages_cons (p : PageResult A) (pager : Pager A)
    (m : gmap string V) :
  aggregate_pages (p :: pager) m =
  match p with
  | PageErr err => (m, Some err, [nextPage])
  | PageOk Value =>
    let r := aggregate_range Value m in
    match r.1.2 with
    | Some err => (r.1.1, Some err, nextPage :: r.2)
    | None =>
      let r' := aggregate_pages pager r.1.1 in
      (r'.1, nextPage :: r.2 ++ r'.2)
    end
  end.
Proof.
  destruct p as [Value|err]; [|done].
  simpl. unfold mbind, M_bind, emit.
  destruct (aggregate_range Value m) as [[m' [err|]] t]; simpl.
  - by rewrite app_nil_r.
  - by destruct (aggregate_pages pager m').
Qed.

Lemma logged_warnings (l : list string) : logged (LogPrintf <$> l) = l.
Proof.
  induction l as [|x l IH]; [done|].
  change (logged (LogPrintf <$> x :: l)) with (x :: logged (LogPrintf <$> l)).
  by rewrite IH.
Qed.

Lemma repeats_app (seen : gset string) (l1 l2 : list string) :
  repeats seen (l1 ++ l2) = repeats seen l1 ++ repeats (seen ∪ list_to_set l1) l2.
Proof.
  revert seen. induction l1 as [|n l1 IH]; intros seen; simpl.
  - by rewrite (right_id_L ∅ (∪)).
  - case_bool_decide as Hn; simpl; rewrite IH.
    + rewrite (assoc_L (∪) seen), (comm_L (∪) seen {[n]}).
      by rewrite (subseteq_union_1_L {[n]} seen) by (by apply singleton_subseteq_l).
    + by rewrite (assoc_L (∪) seen), (comm_L (∪) seen {[n]}).
Qed.

Lemma first_occurrence_is_Some (k : string) (l : list (string * V)) :
  is_Some (first_occurrence k l) ↔ k ∈ l.*1.
Proof.
  induction l as [|[k' x] l IH]; simpl.
  - split; [by intros ?%is_Some_None | by intros ?%elem_of_nil].
  - rewrite elem_of_cons. case_bool_decide as Hk.
    + split; [by left | eauto].
    + rewrite IH. split; [by right | by intros [?|?]].
Qed.

Lemma firstWins_dom (l : list (string * V)) (m : gmap string V) :
  dom (firstWins l m) = dom m ∪ list_to_set l.*1.
Proof.
  apply set_eq. intros k. rewrite elem_of_union, !elem_of_dom, firstWins_lookup.
  rewrite elem_of_list_to_set, <- first_occurrence_is_Some.
  destruct (m !! k) as [x|] eqn:Hk.
  - split; [left|]; eauto.
  - split; [by right | by intros [?%is_Some_None|?]].
Qed.

Lemma entries_cons (p : PageResult A) (pager : Pager A) :
  entries (p :: pager) = pageValue p ++ entries pager.
Proof. done. Qed.

Lemma entries_app (p1 p2 : Pager A) :
  entries (p1 ++ p2) = entries p1 ++ entries p2.
Proof. unfold entries. by rewrite fmap_app, concat_app. Qed.

(** A pager without failed pages or malformed entries is drained whole. *)
Lemma aggregate_pages_clean (pager : Pager A) (m : gmap string V) :
  clean pager = true →
  (aggregate_pages pager m).1 = (firstWins (named (entries pager)) m, None) ∧
  logged (aggregate_pages pager m).2 =
    warning <$> repeats (dom m) (named (entries pager)).*1.
Proof.
  revert m. induction pager as [|p pager IH]; intros m Hc; [done|].
  simpl in Hc. apply andb_prop in Hc as [Hp Hc].
  destruct p as [Value|err]; [|done]. simpl in Hp.
  rewrite aggregate_pages_cons, entries_cons, named_app. simpl.
  rewrite (aggregate_range_clean _ _ Hp). simpl.
  destruct (IH (firstWins (named Value) m) Hc) as [IH1 IH2].
  split.
  - rewrite IH1. unfold firstWins. by rewrite foldl_app.
  - change (logged (nextPage :: ?t)) with (logged ([nextPage] ++ t)).
    rewrite !logged_app, nextPage_silent, IH2, logged_warnings, firstWins_dom.
    rewrite fmap_app, repeats_app, fmap_app. done.
Qed.

(** A drain that ends without error went through a clean pager. *)
Lemma aggregate_pages_no_error (pager : Pager A) (m : gmap string V) :
  (aggregate_pages pager m).1.2 = None → clean pager = true.
Proof.
  revert m. induction pager as [|p pager IH]; intros m; [done|].
  rewrite aggregate_pages_cons. destruct p as [Value|err]; [|done]. simpl.
  pose proof (aggregate_range_error Value m) as He.
  destruct (aggregate_range Value m) as [[m' e] t]. simpl in *.
  destruct (forallb wellFormed Value); subst e; [|done]. simpl. apply IH.
Qed.

(** A malformed entry stops the drain where it stands. *)
Lemma aggregate_pages_stop_entry (ps ps' : Pager A) (vs vs' : list (option A))
    (bad : option A) (m : gmap string V) :
  clean ps = true →
  forallb wellFormed vs = true →
  wellFormed bad = false →
  aggregate_pages (ps ++ PageOk (vs ++ bad :: vs') :: ps') m =
  (((aggregate_pages (ps ++ [PageOk vs]) m).1.1, Some DataIntegrityError),
   (aggregate_pages (ps ++ [PageOk vs]) m).2).
Proof.
  revert m. induction ps as [|p ps IH]; intros m Hc Hvs Hbad.
  - rewrite !app_nil_l, !aggregate_pages_cons. simpl.
    rewrite aggregate_range_stop by done. simpl.
    pose proof (aggregate_range_error vs m) as He.
    rewrite Hvs in He. rewrite He. simpl. by rewrite app_nil_r.
  - simpl in Hc. apply andb_prop in Hc as [Hp Hc].
    destruct p as [Value|err]; [|done]. simpl in Hp.
    rewrite <- !app_comm_cons, !aggregate_pages_cons. simpl.
    rewrite (aggregate_range_clean _ _ Hp). simpl.
    rewrite IH by done. done.
Qed.

(** A failed page fetch stops the drain where it stands. *)
Lemma aggregate_pages_stop_page (ps ps' : Pager A) (err : error)
    (m : gmap string V) :
  clean ps = true →
  aggregate_pages (ps ++ PageErr err :: ps') m =
  (((aggregate_pages ps m).1.1, Some err),
   (aggregate_pages ps m).2 ++ [nextPage]).
Proof.
  revert m. induction ps as [|p ps IH]; intros m Hc.
  - by rewrite !app_nil_l, aggregate_pages_cons.
  - simpl in Hc. apply andb_prop in Hc as [Hp Hc].
    destruct p as [Value|e]; [|done]. simpl in Hp.
    rewrite <- !app_comm_cons, !aggregate_pages_cons. simpl.
    rewrite (aggregate_range_clean _ _ Hp). simpl.
    rewrite IH by done. simpl. by rewrite app_assoc.
Qed.

(** The loop only logs; the drain only fetches pages and logs. *)
Lemma aggregate_range_trace (Value : list (option A)) (m : gmap string V) :
  Forall (λ e, ∃ line, e = LogPrintf line) (aggregate_range Value m).2.
Proof.
  revert m. induction Value as [|v Value IH]; intros m; [by constructor|].
  rewrite aggregate_range_cons.
  destruct (classify v) as [| |k x]; [by constructor | apply IH |].
  destruct (m !! k); [|apply IH].
  constructor; [eauto | apply IH].
Qed.

Lemma aggregate_pages_trace (pager : Pager A) (m : gmap string V) :
  Forall (λ e, e = nextPage ∨ ∃ line, e = LogPrintf line) (aggregate_pages pager m).2.
Proof.
  revert m. induction pager as [|p pager IH]; intros m; [by constructor|].
  rewrite aggregate_pages_cons. destruct p as [Value|err].
  - pose proof (aggregate_range_trace Value m) as Hr.
    assert (Forall (λ e, e = nextPage ∨ ∃ line, e = LogPrintf line)
              (aggregate_range Value m).2) as Hr'
      by (eapply Forall_impl; [exact Hr | intros e He; by right]).
    simpl. destruct ((aggregate_range Value m).1.2); simpl.
    + constructor; [by left | done].
    + constructor; [by left |]. apply Forall_app. split; [done | apply IH].
  - constructor; [by left | constructor].
Qed.

(** Whatever the outcome, a binding of the map was there at the start or
    comes from an entry that was offered under that name. *)
Lemma aggregate_range_origin (Value : list (option A)) (m : gmap string V)
    (k : string) (x : V) :
  (aggregate_range Value m).1.1 !! k = Some x →
  m !! k = Some x ∨ ∃ v, v ∈ Value ∧ classify v = Named k x.
Proof.
  revert m. induction Value as [|v Value IH]; intros m; [by left|].
  rewrite aggregate_range_cons.
  destruct (classify v) as [| |k' x'] eqn:Hv; [by left | |].
  - intros [?|(v' & ? & ?)]%IH; [by left|]. right. exists v'. by rewrite elem_of_cons; eauto.
  - destruct (m !! k') eqn:Hk'; simpl.
    + intros [?|(v' & ? & ?)]%IH; [by left|]. right. exists v'. rewrite elem_of_cons; eauto.
    + intros [Hi|(v' & ? & ?)]%IH.
      * destruct (decide (k' = k)) as [->|Hne].
        -- rewrite lookup_insert_eq in Hi. injection Hi as ->.
           right. exists v. split; [left | done].
        -- rewrite lookup_insert_ne in Hi by done. by left.
      * right. exists v'. rewrite elem_of_cons; eauto.
Qed.

Lemma aggregate_pages_origin (pager : Pager A) (m : gmap string V)
    (k : string) (x : V) :
  (aggregate_pages pager m).1.1 !! k = Some x →
  m !! k = Some x ∨ ∃ v, v ∈ entries pager ∧ classify v = Named k x.
Proof.
  revert m. induction pager as [|p pager IH]; intros m; [by left|].
  rewrite aggregate_pages_cons, entries_cons. destruct p as [Value|err]; [|by left].
  simpl. destruct ((aggregate_range Value m).1.2); simpl.
  - intros [?|(v & ? & ?)]%aggregate_range_origin; [by left|].
    right. exists v. rewrite elem_of_app; eauto.
  - intros [[?|(v & ? & ?)]%aggregate_range_origin|(v & ? & ?)]%IH; [by left | |];
      right; exists v; rewrite elem_of_app; eauto.
Qed.

End AggregationFacts.

(** ** The two listings are instances of the loop *)

Lemma Subscriptions_range_aggregate
    (Value : list (option armsubscription.Subscription))
    (subs : gmap string subscriptionID) :
  Subscriptions_range Value subs =
  aggregate_range subscriptionEntry subscriptionWarning Value subs.
Proof.
  revert subs. induction Value as [|v Value IH]; intros subs; [done|].
  simpl. destruct v as [[[name|] [id|] [state|]]|]; simpl; try done.
  case_bool_decide; [apply IH|].
  destruct (subs !! name); by rewrite IH.
Qed.

Lemma Subscriptions_pages_aggregate
    (pager : Pager armsubscription.Subscription)
    (subs : gmap string subscriptionID) :
  Subscriptions_pages pager subs =
  aggregate_pages subscriptionEntry subscriptionWarning SubscriptionsNextPage pager subs.
Proof.
  revert subs. induction pager as [|p pager IH]; intros subs; [done|].
  simpl. destruct p as [Value|err]; [|done].
  rewrite Subscriptions_range_aggregate. unfold mbind, M_bind.
  destruct (aggregate_range _ _ Value subs) as [[subs' [err|]] t]; [done|].
  by rewrite IH.
Qed.

Lemma Subscriptions_aggregate (w : World) (s : Session) :
  Subscriptions w s =
  match NewSubscriptionsClient w with
  | Some err => (∅, Some err, [])
  | None =>
    aggregate_pages subscriptionEntry subscriptionWarning SubscriptionsNextPage
                    (NewListPager w) ∅
  end.
Proof.
  unfold Subscriptions. destruct (NewSubscriptionsClient w); [done|].
  apply Subscriptions_pages_aggregate.
Qed.

Lemma roleEligibilitySchedules_range_aggregate
    (Value : list (option armauthorization.RoleEligibilitySchedule))
    (r : gmap string (option armauthorization.RoleEligibilitySchedule)) :
  roleEligibilitySchedules_range Value r =
  aggregate_range scheduleEntry scheduleWarning Value r.
Proof.
  revert r. induction Value as [|v Value IH]; intros r; [done|].
  simpl. destruct v as [[id [[[[[[[name|]]|]]|] rd]|]]|]; simpl; try done.
  destruct (r !! name); by rewrite IH.
Qed.

Lemma roleEligibilitySchedules_pages_aggregate (scope : string)
    (pager : Pager armauthorization.RoleEligibilitySchedule)
    (r : gmap string (option armauthorization.RoleEligibilitySchedule)) :
  roleEligibilitySchedules_pages scope pager r =
  aggregate_pages scheduleEntry scheduleWarning (SchedulesNextPage scope) pager r.
Proof.
  revert r. induction pager as [|p pager IH]; intros r; [done|].
  simpl. destruct p as [Value|err]; [|done].
  rewrite roleEligibilitySchedules_range_aggregate. unfold mbind, M_bind.
  destruct (aggregate_range _ _ Value r) as [[r' [err|]] t]; [done|].
  by rewrite IH.
Qed.

Lemma roleEligibilitySchedules_aggregate (w : World) (s : Session) (scope : string) :
  roleEligibilitySchedules w s scope =
  match NewRoleEligibilitySchedulesClient w with
  | Some err => (∅, Some err, [])
  | None =>
    let r := aggregate_pages scheduleEntry scheduleWarning (SchedulesNextPage scope)
                             (ListForScope w scope) ∅ in
    (r.1, NewListForScopePager scope :: r.2)
  end.
Proof.
  unfold roleEligibilitySchedules. destruct (NewRoleEligibilitySchedulesClient w); [done|].
  rewrite emit_run. by rewrite roleEligibilitySchedules_pages_aggregate.
Qed.

Lemma logged_nextPage_subscriptions : logged [SubscriptionsNextPage] = [].
Proof. done. Qed.

Lemma logged_nextPage_schedules (scope : string) : logged [SchedulesNextPage scope] = [].
Proof. done. Qed.

Lemma subscriptionEntry_Named (v : option armsubscription.Subscription)
    (name : string) (id : subscriptionID) :
  subscriptionEntry v = Named name id →
  ∃ v', v = Some v' ∧
        armsubscription.DisplayName v' = Some name ∧
        armsubscription.SubscriptionID v' = Some id ∧
        armsubscription.State v' = Some armsubscription.SubscriptionStateEnabled.
Proof.
  destruct v as [[[name'|] [id'|] [state|]]|]; simpl; try done.
  case_bool_decide as Hs; [done|]. intros [= -> ->].
  subst state. eauto.
Qed.


Lemma nilField_malformed (v : option armsubscription.Subscription) :
  nilField v ↔ wellFormed subscriptionEntry v = false.
Proof.
  unfold wellFormed.
  destruct v as [[[name|] [id|] [state|]]|]; simpl; try case_bool_decide;
    intuition congruence.
Qed.

(** ** Subscriptions *)

(** C1. Whatever the pages hold and however the call ends, every binding of
    the map [Subscriptions] returns comes from a listed entry that carries
    that display name and that identifier and whose state is "Enabled": the
    key set holds names of enabled entries only. *)
Theorem Subscriptions_only_enabled (w : World) (s : Session)
    (name : string) (id : subscriptionID) :
  (result (Subscriptions w s)).1 !! name = Some id →
  ∃ v, Some v ∈ entries (NewListPager w) ∧
       armsubscription.DisplayName v = Some name ∧
       armsubscription.SubscriptionID v = Some id ∧
       armsubscription.State v = Some armsubscription.SubscriptionStateEnabled.
Proof.
  unfold result. rewrite Subscriptions_aggregate.
  destruct (NewSubscriptionsClient w); [simpl; by rewrite lookup_empty|].
  intros [Hm|(v & Hin & Hv)]%aggregate_pages_origin; [by rewrite lookup_empty in Hm|].
  apply subscriptionEntry_Named in Hv as (v' & -> & ?). eauto.
Qed.

Lemma Subscriptions_only_enabled_witness :
  ∃ v, Some v ∈ entries (NewListPager Sample.w) ∧
       armsubscription.DisplayName v = Some "Prod" ∧
       armsubscription.SubscriptionID v = Some "sub-1" ∧
       armsubscription.State v = Some armsubscription.SubscriptionStateEnabled.
Proof.
  apply (Subscriptions_only_enabled Sample.w Sample.session "Prod" "sub-1").
  vm_compute. reflexivity.
Defined.

(** C2. When a listing is drained without error, the map it returns binds
    every display name to the value of the first entry listed under that
    name, in page order; the names bound are exactly the names listed, and
    one warning is logged for each later entry that repeats a name.  This
    holds for [Subscriptions] (over the enabled entries) and for
    [roleEligibilitySchedules] at any scope. *)
Theorem first_occurrence_wins (w : World) (s : Session) (scope : string) :
  (∀ subs t, Subscriptions w s = (subs, None, t) →
     let listed := named subscriptionEntry (entries (NewListPager w)) in
     (∀ name, subs !! name = first_occurrence name listed) ∧
     (∀ name, is_Some (subs !! name) ↔ name ∈ listed.*1) ∧
     logged t = subscriptionWarning <$> repeats ∅ listed.*1) ∧
  (∀ res t, roleEligibilitySchedules w s scope = (res, None, t) →
     let listed := named scheduleEntry (entries (ListForScope w scope)) in
     (∀ name, res !! name = first_occurrence name listed) ∧
     (∀ name, is_Some (res !! name) ↔ name ∈ listed.*1) ∧
     logged t = scheduleWarning <$> repeats ∅ listed.*1).
Proof.
  split.
  - intros subs t. rewrite Subscriptions_aggregate.
    destruct (NewSubscriptionsClient w); [done|]. intros Hrun listed.
    assert (clean subscriptionEntry (NewListPager w) = true) as Hc.
    { eapply aggregate_pages_no_error. by rewrite Hrun. }
    destruct (aggregate_pages_clean subscriptionEntry subscriptionWarning
                SubscriptionsNextPage logged_nextPage_subscriptions _ ∅ Hc) as [Hres Hlog].
    rewrite Hrun in Hres, Hlog. simpl in Hres, Hlog. injection Hres as ->.
    assert (∀ name, firstWins listed ∅ !! name = first_occurrence name listed) as Hl.
    { intros name. by rewrite firstWins_lookup, lookup_empty. }
    split; [done|]. split; [|by rewrite Hlog, dom_empty_L].
    intros name. rewrite Hl. apply first_occurrence_is_Some.
  - intros res t. rewrite roleEligibilitySchedules_aggregate.
    destruct (NewRoleEligibilitySchedulesClient w); [done|]. simpl.
    destruct (aggregate_pages _ _ _ _ _) as [[res' e] t'] eqn:Hrun. simpl.
    intros [= -> -> <-]. set (listed := named scheduleEntry _).
    assert (clean scheduleEntry (ListForScope w scope) = true) as Hc.
    { eapply aggregate_pages_no_error. by rewrite Hrun. }
    destruct (aggregate_pages_clean scheduleEntry scheduleWarning
                (SchedulesNextPage scope) (logged_nextPage_schedules scope) _ ∅ Hc)
      as [Hres Hlog].
    rewrite Hrun in Hres, Hlog. simpl in Hres, Hlog. injection Hres as ->.
    assert (∀ name, firstWins listed ∅ !! name = first_occurrence name listed) as Hl.
    { intros name. by rewrite firstWins_lookup, lookup_empty. }
    split; [done|]. split.
    + intros name. rewrite Hl. apply first_occurrence_is_Some.
    + change (logged (?e :: t')) with (logged ([e] ++ t')).
      rewrite logged_app, Hlog, dom_empty_L. done.
Qed.

Lemma first_occurrence_wins_witness :
  (Subscriptions Sample.w Sample.session).1.1 !! "Prod" = Some "sub-1" ∧
  logged (Subscriptions Sample.w Sample.session).2 =
    ["WARNING: duplicate subscription ignored: Prod"] ∧
  (roleEligibilitySchedules Sample.w Sample.session "subscriptions/sub-1").1.1 !! "Reader" =
    Some (Sample.sched "e2" "rd2" "Reader") ∧
  logged (roleEligibilitySchedules Sample.w Sample.session "subscriptions/sub-1").2 =
    ["WARNING: duplicate eligiblity ignored for role Reader"].
Proof.
  destruct (first_occurrence_wins Sample.w Sample.session "subscriptions/sub-1") as [H1 H2].
  destruct (H1 (Subscriptions Sample.w Sample.session).1.1
               (Subscriptions Sample.w Sample.session).2) as (Ha & _ & Hb);
    [vm_compute; reflexivity|].
  destruct (H2 (roleEligibilitySchedules Sample.w Sample.session "subscriptions/sub-1").1.1
               (roleEligibilitySchedules Sample.w Sample.session "subscriptions/sub-1").2)
    as (Hc & _ & Hd); [vm_compute; reflexivity|].
  split; [exact (Ha "Prod")|]. split; [exact Hb|].
  split; [exact (Hc "Reader") | exact Hd].
Defined.

(** C5. When the listing is clean up to an entry with a nil display name,
    identifier or state (or a nil entry), [Subscriptions] stops on that
    entry: it returns DataIntegrityError together with the map and the trace
    of draining just what came before it, so no later entry is read and no
    later page is fetched.  When the listing is clean up to a page fetch
    that fails, it returns that error together with the map built from the
    pages before it. *)
Theorem Subscriptions_partial_on_error (w : World) (s : Session)
    (ps ps' : Pager armsubscription.Subscription) :
  NewSubscriptionsClient w = None →
  clean subscriptionEntry ps = true →
  (∀ vs bad vs',
     forallb (wellFormed subscriptionEntry) vs = true →
     nilField bad →
     NewListPager w = ps ++ PageOk (vs ++ bad :: vs') :: ps' →
     let before := Subscriptions_pages (ps ++ [PageOk vs]) ∅ in
     before.1.2 = None ∧
     (∀ name, before.1.1 !! name =
              first_occurrence name (named subscriptionEntry (entries ps ++ vs))) ∧
     Subscriptions w s = (before.1.1, Some DataIntegrityError, before.2)) ∧
  (∀ err,
     NewListPager w = ps ++ PageErr err :: ps' →
     let before := Subscriptions_pages ps ∅ in
     before.1.2 = None ∧
     (∀ name, before.1.1 !! name =
              first_occurrence name (named subscriptionEntry (entries ps))) ∧
     Subscriptions w s = (before.1.1, Some err, before.2 ++ [SubscriptionsNextPage])).
Proof.
  intros Hclient Hps. split.
  - intros vs bad vs' Hvs Hbad%nilField_malformed Hpager before. subst before.
    rewrite Subscriptions_aggregate, Hclient, Hpager, Subscriptions_pages_aggregate.
    assert (clean subscriptionEntry (ps ++ [PageOk vs]) = true) as Hc.
    { unfold clean in *. rewrite forallb_app, Hps. simpl. by rewrite Hvs. }
    destruct (aggregate_pages_clean subscriptionEntry subscriptionWarning
                SubscriptionsNextPage logged_nextPage_subscriptions _ ∅ Hc) as [Hres _].
    rewrite Hres. simpl. split; [done|]. split.
    + intros name. rewrite firstWins_lookup, lookup_empty, entries_app. simpl.
      unfold entries at 2. simpl. by rewrite app_nil_r.
    + rewrite aggregate_pages_stop_entry by done. by rewrite Hres.
  - intros err Hpager before. subst before.
    rewrite Subscriptions_aggregate, Hclient, Hpager, Subscriptions_pages_aggregate.
    destruct (aggregate_pages_clean subscriptionEntry subscriptionWarning
                SubscriptionsNextPage logged_nextPage_subscriptions _ ∅ Hps) as [Hres _].
    rewrite Hres. simpl. split; [done|]. split.
    + intros name. by rewrite firstWins_lookup, lookup_empty.
    + rewrite aggregate_pages_stop_page by done. by rewrite Hres.
Qed.

Lemma Subscriptions_partial_on_error_witness :
  Subscriptions (Sample.world Sample.brokenSubscriptions Sample.schedules) Sample.session =
    ({[ "Prod" := "sub-1"; "Dev" := "sub-3" ]}, Some DataIntegrityError,
     [SubscriptionsNextPage; SubscriptionsNextPage]) ∧
  Subscriptions (Sample.world Sample.failingSubscriptions Sample.schedules) Sample.session =
    ({[ "Prod" := "sub-1" ]}, Some (sdk_error "context deadline exceeded"),
     [SubscriptionsNextPage; SubscriptionsNextPage]).
Proof.
  split.
  - destruct (Subscriptions_partial_on_error
                (Sample.world Sample.brokenSubscriptions Sample.schedules) Sample.session
                [PageOk [Sample.sub "Prod" "sub-1" "Enabled"]]
                [PageOk [Sample.sub "Late" "sub-5" "Enabled"]]
                eq_refl eq_refl) as [H _].
    destruct (H [Sample.sub "Dev" "sub-3" "Enabled"] Sample.disabledNoName
                [Sample.sub "Test" "sub-4" "Enabled"]) as (_ & _ & Hrun);
      [reflexivity | simpl; by left | reflexivity |].
    rewrite Hrun. vm_compute. reflexivity.
  - destruct (Subscriptions_partial_on_error
                (Sample.world Sample.failingSubscriptions Sample.schedules) Sample.session
                [PageOk [Sample.sub "Prod" "sub-1" "Enabled"]]
                [PageOk [Sample.sub "Late" "sub-5" "Enabled"]]
                eq_refl eq_refl) as [_ H].
    destruct (H (sdk_error "context deadline exceeded")) as (_ & _ & Hrun);
      [reflexivity|].
    rewrite Hrun. vm_compute. reflexivity.
Defined.

(** C10. The nil check of [Subscriptions] comes before its state filter: an
    entry that is not in the "Enabled" state and has a nil display name,
    identifier or state makes the call end with DataIntegrityError, as soon
    as the loop reaches it; it is not stepped over as a disabled entry. *)
Theorem Subscriptions_nil_check_before_state_filter (w : World) (s : Session)
    (ps ps' : Pager armsubscription.Subscription)
    (vs vs' : list (option armsubscription.Subscription))
    (v : armsubscription.Subscription) :
  NewSubscriptionsClient w = None →
  clean subscriptionEntry ps = true →
  forallb (wellFormed subscriptionEntry) vs = true →
  armsubscription.State v ≠ Some armsubscription.SubscriptionStateEnabled →
  armsubscription.DisplayName v = None ∨
    armsubscription.SubscriptionID v = None ∨
    armsubscription.State v = None →
  NewListPager w = ps ++ PageOk (vs ++ Some v :: vs') :: ps' →
  (result (Subscriptions w s)).2 = Some DataIntegrityError.
Proof.
  intros Hclient Hps Hvs _ Hnil Hpager.
  assert (wellFormed subscriptionEntry (Some v) = false) as Hbad
    by (by apply nilField_malformed).
  unfold result.
  rewrite Subscriptions_aggregate, Hclient, Hpager.
  by rewrite aggregate_pages_stop_entry.
Qed.

Lemma Subscriptions_nil_check_before_state_filter_witness :
  (result (Subscriptions (Sample.world Sample.brokenSubscriptions Sample.schedules)
                         Sample.session)).2 = Some DataIntegrityError.
Proof.
  apply (Subscriptions_nil_check_before_state_filter
           (Sample.world Sample.brokenSubscriptions Sample.schedules) Sample.session
           [PageOk [Sample.sub "Prod" "sub-1" "Enabled"]]
           [PageOk [Sample.sub "Late" "sub-5" "Enabled"]]
           [Sample.sub "Dev" "sub-3" "Enabled"]
           [Sample.sub "Test" "sub-4" "Enabled"]
           {| armsubscription.DisplayName := None;
              armsubscription.SubscriptionID := Some "sub-9";
              armsubscription.State := Some "Disabled" |}).
  - reflexivity.
  - reflexivity.
  - reflexivity.
  - simpl. discriminate.
  - left. reflexivity.
  - reflexivity.
Defined.

(** A disabled entry with all its fields is stepped over. *)
Lemma Subscriptions_range_skips_disabled
    (name id : string) (state : armsubscription.SubscriptionState)
    (Value : list (option armsubscription.Subscription))
    (subs : gmap string subscriptionID) :
  state ≠ armsubscription.SubscriptionStateEnabled →
  Subscriptions_range
    (Some {| armsubscription.DisplayName := Some name;
             armsubscription.SubscriptionID := Some id;
             armsubscription.State := Some state |} :: Value) subs =
  Subscriptions_range Value subs.
Proof. intros Hs. simpl. by rewrite bool_decide_eq_true_2. Qed.

(** ** What the listings leave in the trace *)

Lemma Subscriptions_trace (w : World) (s : Session) :
  Forall (λ e, e = SubscriptionsNextPage ∨ ∃ line, e = LogPrintf line)
         (trace (Subscriptions w s)).
Proof.
  unfold trace. rewrite Subscriptions_aggregate.
  destruct (NewSubscriptionsClient w); [by constructor|].
  apply aggregate_pages_trace.
Qed.

Lemma roleEligibilitySchedules_trace (w : World) (s : Session) (scope : string) :
  Forall (λ e, e = NewListForScopePager scope ∨ e = SchedulesNextPage scope ∨
               ∃ line, e = LogPrintf line)
         (trace (roleEligibilitySchedules w s scope)).
Proof.
  unfold trace. rewrite roleEligibilitySchedules_aggregate.
  destruct (NewRoleEligibilitySchedulesClient w); [by constructor|].
  simpl. constructor; [by left|].
  eapply Forall_impl; [apply aggregate_pages_trace|].
  intros e [->|?]; [right; by left | right; by right].
Qed.

Lemma Subscriptions_trace_local (w : World) (s : Session) :
  Forall (λ e, isSchedulesCall e = false ∧ isCreate e = false)
         (trace (Subscriptions w s)).
Proof.
  eapply Forall_impl; [apply Subscriptions_trace|].
  by intros e [->|[line ->]].
Qed.

Lemma roleEligibilitySchedules_trace_no_create (w : World) (s : Session)
    (scope : string) :
  Forall (λ e, isCreate e = false) (trace (roleEligibilitySchedules w s scope)).
Proof.
  eapply Forall_impl; [apply roleEligibilitySchedules_trace|].
  by intros e [->|[->|[line ->]]].
Qed.

(** ** The order of a map walk *)

Lemma take_nth_Permutation {A} (n : nat) (l : list A) (x : A) (r : list A) :
  take_nth n l = Some (x, r) → l ≡ₚ x :: r.
Proof.
  revert n x r. induction l as [|y l IH]; intros n x r; [done|].
  destruct n as [|n]; simpl.
  - intros [= -> ->]. reflexivity.
  - destruct (take_nth n l) as [[z r']|] eqn:Hn; [|done].
    intros [= -> <-]. rewrite (IH _ _ _ Hn). apply Permutation_swap.
Qed.

Lemma take_nth_is_Some {A} (n : nat) (l : list A) :
  (n < length l)%nat → is_Some (take_nth n l).
Proof.
  revert n. induction l as [|y l IH]; intros n Hn; simpl in *; [lia|].
  destruct n as [|n]; [eauto|].
  destruct (IH n) as [[z r] ->]; [lia | eauto].
Qed.

Lemma range_order_Permutation {A} (seed : list nat) (l : list A) :
  range_order seed l ≡ₚ l.
Proof.
  revert l. induction seed as [|n seed IH]; intros l; [done|].
  simpl. destruct (take_nth _ l) as [[x r]|] eqn:Hn; [|done].
  rewrite IH. symmetry. by eapply take_nth_Permutation.
Qed.

Lemma take_nth_elem_of {A} (x : A) (l : list A) :
  x ∈ l → ∃ n r, (n < length l)%nat ∧ take_nth n l = Some (x, r).
Proof.
  induction l as [|y l IH]; [by intros ?%elem_of_nil|].
  intros [->|Hin]%elem_of_cons.
  - exists 0%nat, l. simpl. split; [lia | done].
  - destruct (IH Hin) as (n & r & Hn & Hr).
    exists (S n), (y :: r). simpl. rewrite Hr. split; [lia | done].
Qed.

(** Every order of the keys is the walk of some seed. *)
Lemma range_order_any {A} (l l' : list A) :
  l' ≡ₚ l → ∃ seed, range_order seed l = l'.
Proof.
  revert l. induction l' as [|x l' IH]; intros l Hp.
  - apply Permutation_nil_l in Hp as ->. by exists [].
  - destruct (take_nth_elem_of x l) as (n & r & Hn & Hr).
    { rewrite <- Hp. by left. }
    destruct (IH r) as [seed Hseed].
    { apply take_nth_Permutation in Hr. rewrite Hr in Hp.
      by apply Permutation_cons_inv in Hp. }
    exists (n :: seed). simpl.
    rewrite Nat.mod_small by done. by rewrite Hr, Hseed.
Qed.

Lemma range_keys_spec {V} (seed : list nat) (m : gmap string V) :
  NoDup (range_keys seed m) ∧ ∀ k, k ∈ range_keys seed m ↔ is_Some (m !! k).
Proof.
  unfold range_keys. split.
  - rewrite range_order_Permutation. apply NoDup_fst_map_to_list.
  - intros k. rewrite range_order_Permutation, <- elem_of_dom.
    rewrite list_elem_of_fmap. split.
    + intros ([k' x] & -> & Hin). apply elem_of_map_to_list in Hin.
      apply elem_of_dom. eauto.
    + intros [x Hx]%elem_of_dom. exists (k, x). split; [done|].
      by apply elem_of_map_to_list.
Qed.

(** ** RolesForSubscription and ActiveRoleAssignment *)



Lemma scopesListed_app (t1 t2 : list Event) :
  scopesListed (t1 ++ t2) = scopesListed t1 ++ scopesListed t2.
Proof. unfold scopesListed. apply omap_app. Qed.

Lemma scopesListed_local (t : list Event) :
  Forall (λ e, ∀ scope, e ≠ NewListForScopePager scope) t → scopesListed t = [].
Proof.
  induction 1 as [|e t He _ IH]; [done|].
  change (e :: t) with ([e] ++ t). rewrite scopesListed_app, IH.
  destruct e; try done. by destruct (He scope).
Qed.

Lemma Subscriptions_no_scopes (w : World) (s : Session) :
  scopesListed (trace (Subscriptions w s)) = [].
Proof.
  apply scopesListed_local. eapply Forall_impl; [apply Subscriptions_trace|].
  by intros e [->|[line ->]].
Qed.

Lemma roleEligibilitySchedules_scopes (w : World) (s : Session) (scope : string) :
  NewRoleEligibilitySchedulesClient w = None →
  scopesListed (trace (roleEligibilitySchedules w s scope)) = [scope].
Proof.
  intros Hclient. unfold trace.
  rewrite roleEligibilitySchedules_aggregate, Hclient. simpl.
  change (?e :: ?t) with ([e] ++ t). rewrite scopesListed_app.
  rewrite (scopesListed_local (aggregate_pages _ _ _ _ _).2); [done|].
  eapply Forall_impl; [apply aggregate_pages_trace|].
  by intros e [->|[line ->]].
Qed.

(** Every record [roleEligibilitySchedules] returns went through its nil
    checks under the name it is bound to. *)
Lemma roleEligibilitySchedules_checked (w : World) (s : Session) (scope name : string)
    (re : option armauthorization.RoleEligibilitySchedule) :
  (result (roleEligibilitySchedules w s scope)).1 !! name = Some re →
  scheduleEntry re = Named name re.
Proof.
  unfold result. rewrite roleEligibilitySchedules_aggregate.
  destruct (NewRoleEligibilitySchedulesClient w); simpl; [by rewrite lookup_empty|].
  intros [Hm|(v & _ & Hv)]%aggregate_pages_origin; [by rewrite lookup_empty in Hm|].
  assert (v = re) as ->; [|done].
  destruct v as [[id [[[[[[[name'|]]|]]|] rd]|]]|]; simpl in Hv; try done.
  by injection Hv.
Qed.

(** C6. With the subscription listing drained without error:
    a name that is not a key of its map makes [RolesForSubscription] fail
    with SubscriptionNotFound, and its trace is the trace of the
    subscription listing alone, without any eligibility-schedule call; a name
    that is a key makes it list the schedules at "/subscriptions/<id>" and,
    when that listing succeeds, return the keys of the schedules map, each
    once, in the order of the map walk. *)
Theorem RolesForSubscription_spec (w : World) (s : Session)
    (subscriptionName : string) (subs : gmap string subscriptionID)
    (t1 : list Event) :
  Subscriptions w s = (subs, None, t1) →
  (subs !! subscriptionName = None →
     RolesForSubscription w s subscriptionName = ([], Some SubscriptionNotFound, t1) ∧
     Forall (λ e, isSchedulesCall e = false) t1) ∧
  (∀ id res t2,
     subs !! subscriptionName = Some id →
     roleEligibilitySchedules w s ("/subscriptions/" +:+ id) = (res, None, t2) →
     ∃ roles,
       RolesForSubscription w s subscriptionName = (roles, None, t1 ++ t2) ∧
       NoDup roles ∧
       ∀ name, name ∈ roles ↔ is_Some (res !! name)).
Proof.
  intros Hsubs. unfold RolesForSubscription. rewrite bind_run, Hsubs.
  cbn [fst snd]. split.
  - intros ->. cbn [fst snd]. rewrite app_nil_r. split; [done|].
    pose proof (Subscriptions_trace_local w s) as Ht.
    unfold trace in Ht. rewrite Hsubs in Ht.
    eapply Forall_impl; [exact Ht|]. by intros e [? _].
  - intros id res t2 -> Hres. rewrite bind_run, Hres. simpl.
    exists (range_keys (rangeSeed w) res). rewrite app_nil_r.
    split; [done|]. apply range_keys_spec.
Qed.

Lemma RolesForSubscription_spec_witness :
  (RolesForSubscription Sample.w Sample.session "nonexistent" =
     ([], Some SubscriptionNotFound, trace (Subscriptions Sample.w Sample.session)) ∧
   Forall (λ e, isSchedulesCall e = false) (trace (Subscriptions Sample.w Sample.session))) ∧
  ∃ roles,
    RolesForSubscription Sample.w Sample.session "Prod" =
      (roles, None,
       trace (Subscriptions Sample.w Sample.session) ++
       trace (roleEligibilitySchedules Sample.w Sample.session "/subscriptions/sub-1")) ∧
    NoDup roles ∧
    ∀ name, name ∈ roles ↔
      is_Some ((result (roleEligibilitySchedules Sample.w Sample.session
                          "/subscriptions/sub-1")).1 !! name).
Proof.
  split.
  - destruct (RolesForSubscription_spec Sample.w Sample.session "nonexistent"
                (result (Subscriptions Sample.w Sample.session)).1
                (trace (Subscriptions Sample.w Sample.session))) as [H _];
      [vm_compute; reflexivity|].
    apply H. vm_compute. reflexivity.
  - destruct (RolesForSubscription_spec Sample.w Sample.session "Prod"
                (result (Subscriptions Sample.w Sample.session)).1
                (trace (Subscriptions Sample.w Sample.session))) as [_ H];
      [vm_compute; reflexivity|].
    apply (H "sub-1"); vm_compute; reflexivity.
Defined.

Lemma listings_no_create (w : World) (s : Session) (scope : string)
    (subs : gmap string subscriptionID)
    (res : gmap string (option armauthorization.RoleEligibilitySchedule))
    (e1 e2 : option error) (t1 t2 : list Event) :
  Subscriptions w s = (subs, e1, t1) →
  roleEligibilitySchedules w s scope = (res, e2, t2) →
  Forall (λ e, isCreate e = false) (t1 ++ t2).
Proof.
  intros H1 H2. apply Forall_app. split.
  - pose proof (Subscriptions_trace_local w s) as Ht.
    unfold trace in Ht. rewrite H1 in Ht.
    eapply Forall_impl; [exact Ht|]. by intros e [_ ?].
  - pose proof (roleEligibilitySchedules_trace_no_create w s scope) as Ht.
    unfold trace in Ht. by rewrite H2 in Ht.
Qed.

(** C4. With the subscription listing drained without error:
    a subscription name that is not a key of its map makes
    [ActiveRoleAssignment] fail with SubscriptionNotFound right after that
    listing, before any eligibility-schedule call; a name that resolves makes
    it list the schedules at "subscriptions/<id>" and, when that listing
    succeeds and does not hold the role name, fail with RoleNotFound.  In
    both cases the trace holds no create request. *)
Theorem ActiveRoleAssignment_not_found (w : World) (s : Session)
    (subscriptionName roleDisplayName justifiction : string) (duration : Duration)
    (subs : gmap string subscriptionID) (t1 : list Event) :
  Subscriptions w s = (subs, None, t1) →
  (subs !! subscriptionName = None →
     ActiveRoleAssignment w s subscriptionName roleDisplayName justifiction duration =
       (Some SubscriptionNotFound, t1) ∧
     Forall (λ e, isSchedulesCall e = false ∧ isCreate e = false) t1) ∧
  (∀ id res t2,
     subs !! subscriptionName = Some id →
     roleEligibilitySchedules w s ("subscriptions/" +:+ id) = (res, None, t2) →
     res !! roleDisplayName = None →
     ActiveRoleAssignment w s subscriptionName roleDisplayName justifiction duration =
       (Some RoleNotFound, t1 ++ t2) ∧
     Forall (λ e, isCreate e = false) (t1 ++ t2)).
Proof.
  intros Hsubs. unfold ActiveRoleAssignment. rewrite bind_run, Hsubs.
  cbn [fst snd]. split.
  - intros ->. cbn [fst snd]. rewrite app_nil_r. split; [done|].
    pose proof (Subscriptions_trace_local w s) as Ht.
    unfold trace in Ht. by rewrite Hsubs in Ht.
  - intros id res t2 -> Hres Hrole. rewrite bind_run, Hres. cbn [fst snd].
    rewrite Hrole. cbn [fst snd]. rewrite app_nil_r. split; [done|].
    by eapply listings_no_create.
Qed.

Lemma ActiveRoleAssignment_not_found_witness :
  (ActiveRoleAssignment Sample.w Sample.session "nonexistent" "Reader" "on-call"
                        (90 * Minute) =
     (Some SubscriptionNotFound, trace (Subscriptions Sample.w Sample.session)) ∧
   Forall (λ e, isSchedulesCall e = false ∧ isCreate e = false)
          (trace (Subscriptions Sample.w Sample.session))) ∧
  (ActiveRoleAssignment Sample.w Sample.session "Prod" "Owner" "on-call"
                        (90 * Minute) =
     (Some RoleNotFound,
      trace (Subscriptions Sample.w Sample.session) ++
      trace (roleEligibilitySchedules Sample.w Sample.session "subscriptions/sub-1")) ∧
   Forall (λ e, isCreate e = false)
          (trace (Subscriptions Sample.w Sample.session) ++
           trace (roleEligibilitySchedules Sample.w Sample.session "subscriptions/sub-1"))).
Proof.
  split.
  - destruct (ActiveRoleAssignment_not_found Sample.w Sample.session
                "nonexistent" "Reader" "on-call" (90 * Minute)
                (result (Subscriptions Sample.w Sample.session)).1
                (trace (Subscriptions Sample.w Sample.session))) as [H _];
      [vm_compute; reflexivity|].
    apply H. vm_compute. reflexivity.
  - destruct (ActiveRoleAssignment_not_found Sample.w Sample.session
                "Prod" "Owner" "on-call" (90 * Minute)
                (result (Subscriptions Sample.w Sample.session)).1
                (trace (Subscriptions Sample.w Sample.session))) as [_ H];
      [vm_compute; reflexivity|].
    apply (H "sub-1"
             (result (roleEligibilitySchedules Sample.w Sample.session
                        "subscriptions/sub-1")).1);
      vm_compute; reflexivity.
Defined.

(** C9. When the subscription and the role both resolve but the schedule
    record bound to the role lacks its identifier, its role-definition
    identifier or a link of the expanded-properties path,
    [ActiveRoleAssignment] fails with DataIntegrityError right after the two
    listings: no request is built and the trace holds no create request. *)
Theorem ActiveRoleAssignment_malformed_schedule (w : World) (s : Session)
    (subscriptionName roleDisplayName justifiction : string) (duration : Duration)
    (subs : gmap string subscriptionID) (t1 : list Event) (id : subscriptionID)
    (res : gmap string (option armauthorization.RoleEligibilitySchedule))
    (t2 : list Event) (re : option armauthorization.RoleEligibilitySchedule) :
  Subscriptions w s = (subs, None, t1) →
  subs !! subscriptionName = Some id →
  roleEligibilitySchedules w s ("subscriptions/" +:+ id) = (res, None, t2) →
  res !! roleDisplayName = Some re →
  lacksRequiredField re →
  ActiveRoleAssignment w s subscriptionName roleDisplayName justifiction duration =
    (Some DataIntegrityError, t1 ++ t2) ∧
  Forall (λ e, isCreate e = false) (t1 ++ t2).
Proof.
  intros Hsubs Hsub Hres Hrole Hlacks.
  split; [|by eapply listings_no_create].
  unfold ActiveRoleAssignment. rewrite bind_run, Hsubs. cbn [fst snd].
  rewrite Hsub, bind_run, Hres. cbn [fst snd]. rewrite Hrole.
  unfold lacksRequiredField in Hlacks.
  destruct re as [[[i|] [[[[[rdef|]]|] [rd|]]|]]|];
    cbn [fst snd]; rewrite ?app_nil_r; try done.
  simpl in Hlacks. intuition congruence.
Qed.

Lemma ActiveRoleAssignment_malformed_schedule_witness :
  let w := Sample.world Sample.subscriptions Sample.schedulesNoID in
  ActiveRoleAssignment w Sample.session "Prod" "Reader" "on-call" (90 * Minute) =
    (Some DataIntegrityError,
     trace (Subscriptions w Sample.session) ++
     trace (roleEligibilitySchedules w Sample.session "subscriptions/sub-1")) ∧
  Forall (λ e, isCreate e = false)
         (trace (Subscriptions w Sample.session) ++
          trace (roleEligibilitySchedules w Sample.session "subscriptions/sub-1")).
Proof.
  intros w.
  apply (ActiveRoleAssignment_malformed_schedule w Sample.session
           "Prod" "Reader" "on-call" (90 * Minute)
           (result (Subscriptions w Sample.session)).1
           (trace (Subscriptions w Sample.session)) "sub-1"
           (result (roleEligibilitySchedules w Sample.session "subscriptions/sub-1")).1
           (trace (roleEligibilitySchedules w Sample.session "subscriptions/sub-1"))
           (Sample.schedNoID "rd2" "Reader")).
  - vm_compute. reflexivity.
  - vm_compute. reflexivity.
  - vm_compute. reflexivity.
  - vm_compute. reflexivity.
  - simpl. left. reflexivity.
Defined.

(** C7. When the subscription and the role resolve, the schedule record has
    its identifier and its role-definition identifier, and the UUID
    generator and the request client are obtained, [ActiveRoleAssignment]
    issues exactly one create request, after the two listings, at
    "/subscriptions/<id>", under the generated UUID, whose body is:
    self-activate, the principal of the session, the role-definition
    identifier and the identifier of the resolved schedule record, the
    caller's justification, the current time as start, and an
    after-duration expiration carrying the serialized duration.  The call
    then returns what the create call returned. *)
Theorem ActiveRoleAssignment_request (w : World) (s : Session)
    (subscriptionName roleDisplayName justifiction : string) (duration : Duration)
    (subs : gmap string subscriptionID) (t1 : list Event) (id : subscriptionID)
    (res : gmap string (option armauthorization.RoleEligibilitySchedule))
    (t2 : list Event) (re : armauthorization.RoleEligibilitySchedule)
    (reID roleDefinitionID guid : string)
    (props : armauthorization.RoleEligibilityScheduleProperties) :
  Subscriptions w s = (subs, None, t1) →
  subs !! subscriptionName = Some id →
  roleEligibilitySchedules w s ("subscriptions/" +:+ id) = (res, None, t2) →
  res !! roleDisplayName = Some (Some re) →
  armauthorization.ID re = Some reID →
  armauthorization.Properties re = Some props →
  armauthorization.RoleDefinitionID props = Some roleDefinitionID →
  NewUUID w = inr guid →
  NewRoleAssignmentScheduleRequestsClient w = None →
  let req :=
    {| armauthorization.ReqProperties := Some {|
         armauthorization.PrincipalID := Some (principalID s);
         armauthorization.ReqType := Some armauthorization.RequestTypeSelfActivate;
         armauthorization.ReqRoleDefinitionID := Some roleDefinitionID;
         armauthorization.Justification := Some justifiction;
         armauthorization.SchedInfo := Some {|
           armauthorization.StartDateTime := Some (Now w);
           armauthorization.Expiration := Some {|
             armauthorization.Type' := Some armauthorization.TypeAfterDuration;
             armauthorization.Duration' := Some (expirationDuration duration) |} |};
         armauthorization.LinkedRoleEligibilityScheduleID := Some reID |} |} in
  let scope := "/subscriptions/" +:+ id in
  ∃ tail,
    trace (ActiveRoleAssignment w s subscriptionName roleDisplayName
                                justifiction duration) =
      t1 ++ t2 ++ Create scope guid req :: tail ∧
    Forall (λ e, isCreate e = false) (t1 ++ t2 ++ tail) ∧
    result (ActiveRoleAssignment w s subscriptionName roleDisplayName
                                 justifiction duration) =
      match CreateResult w scope guid req with
      | inl err => Some err
      | inr _ => None
      end.
Proof.
  intros Hsubs Hsub Hres Hrole HID Hprops Hrd Huuid Hclient req scope.
  pose proof (listings_no_create _ _ _ _ _ _ _ _ _ Hsubs Hres) as Hquiet.
  pose proof (roleEligibilitySchedules_checked w s ("subscriptions/" +:+ id)
                roleDisplayName (Some re)) as Hchecked.
  unfold result in Hchecked. rewrite Hres in Hchecked.
  specialize (Hchecked Hrole).
  destruct re as [i [[[[[[[name|]]|]]|] rd]|]]; simpl in *; try done.
  injection Hprops as <-. simpl in Hrd. subst i rd.
  unfold trace, result, ActiveRoleAssignment.
  rewrite bind_run, Hsubs. cbn [fst snd].
  rewrite Hsub, bind_run, Hres. cbn [fst snd]. rewrite Hrole.
  cbn iota beta. rewrite Huuid, Hclient.
  unfold buildRequest. fold req. fold scope. rewrite emit_run.
  destruct (CreateResult w scope guid req) as [err|resp].
  - exists []. cbn [fst snd]. rewrite !app_nil_r. by repeat split.
  - destruct (armauthorization.MarshalIndent resp) as [b|].
    + exists [LogPrintf (b +:+ LF)]. rewrite emit_run. cbn [fst snd].
      split; [done|]. split; [|done].
      rewrite app_assoc. apply Forall_app. split; [done|].
      by constructor.
    + exists []. cbn [fst snd]. rewrite !app_nil_r. by repeat split.
Qed.

Lemma ActiveRoleAssignment_request_witness :
  ∃ tail,
    trace (ActiveRoleAssignment Sample.w Sample.session "Prod" "Contributor"
                                "on-call" (90 * Minute)) =
      trace (Subscriptions Sample.w Sample.session) ++
      trace (roleEligibilitySchedules Sample.w Sample.session "subscriptions/sub-1") ++
      Create "/subscriptions/sub-1" "6ba7b810-9dad-11d1-80b4-00c04fd430c8"
        {| armauthorization.ReqProperties := Some {|
             armauthorization.PrincipalID := Some "principal-0";
             armauthorization.ReqType := Some armauthorization.RequestTypeSelfActivate;
             armauthorization.ReqRoleDefinitionID := Some "rd1";
             armauthorization.Justification := Some "on-call";
             armauthorization.SchedInfo := Some {|
               armauthorization.StartDateTime := Some 1700000000000000000;
               armauthorization.Expiration := Some {|
                 armauthorization.Type' := Some armauthorization.TypeAfterDuration;
                 armauthorization.Duration' := Some "PT90M" |} |};
             armauthorization.LinkedRoleEligibilityScheduleID := Some "e1" |} |}
        :: tail ∧
    result (ActiveRoleAssignment Sample.w Sample.session "Prod" "Contributor"
                                 "on-call" (90 * Minute)) = None.
Proof.
  destruct (ActiveRoleAssignment_request Sample.w Sample.session
              "Prod" "Contributor" "on-call" (90 * Minute)
              (result (Subscriptions Sample.w Sample.session)).1
              (trace (Subscriptions Sample.w Sample.session)) "sub-1"
              (result (roleEligibilitySchedules Sample.w Sample.session
                         "subscriptions/sub-1")).1
              (trace (roleEligibilitySchedules Sample.w Sample.session
                        "subscriptions/sub-1"))
              {| armauthorization.ID := Some "e1";
                 armauthorization.Properties := Some {|
                   armauthorization.ExpandedProps := Some {|
                     armauthorization.RoleDefinition := Some {|
                       armauthorization.DisplayName := Some "Contributor" |} |};
                   armauthorization.RoleDefinitionID := Some "rd1" |} |}
              "e1" "rd1" "6ba7b810-9dad-11d1-80b4-00c04fd430c8"
              {| armauthorization.ExpandedProps := Some {|
                   armauthorization.RoleDefinition := Some {|
                     armauthorization.DisplayName := Some "Contributor" |} |};
                 armauthorization.RoleDefinitionID := Some "rd1" |})
    as (tail & Htrace & _ & Hresult);
    try (vm_compute; reflexivity).
  exists tail. split; [exact Htrace | exact Hresult].
Defined.

(** C8. For a subscription that resolves to [id], [RolesForSubscription]
    opens its eligibility-schedule pager at "/subscriptions/" ++ id and
    [ActiveRoleAssignment] opens its one at "subscriptions/" ++ id; each
    opens no other pager, and the two scopes are different strings. *)
Theorem scope_formats_differ (w : World) (s : Session)
    (subscriptionName roleDisplayName justifiction : string) (duration : Duration)
    (subs : gmap string subscriptionID) (t1 : list Event) (id : subscriptionID) :
  Subscriptions w s = (subs, None, t1) →
  subs !! subscriptionName = Some id →
  NewRoleEligibilitySchedulesClient w = None →
  scopesListed (trace (RolesForSubscription w s subscriptionName)) =
    ["/subscriptions/" +:+ id] ∧
  scopesListed (trace (ActiveRoleAssignment w s subscriptionName roleDisplayName
                                            justifiction duration)) =
    ["subscriptions/" +:+ id] ∧
  "/subscriptions/" +:+ id ≠ "subscriptions/" +:+ id.
Proof.
  intros Hsubs Hsub Hclient.
  pose proof (Subscriptions_no_scopes w s) as Ht1.
  unfold trace in Ht1. rewrite Hsubs in Ht1. cbn [snd] in Ht1.
  split; [|split; [|done]].
  - unfold trace, RolesForSubscription. rewrite bind_run, Hsubs. cbn [fst snd].
    rewrite Hsub, bind_run. cbn [fst snd].
    rewrite !scopesListed_app, Ht1.
    pose proof (roleEligibilitySchedules_scopes w s ("/subscriptions/" +:+ id) Hclient)
      as Ht2.
    unfold trace in Ht2. rewrite Ht2.
    by destruct (roleEligibilitySchedules w s _) as [[res [err|]] t2].
  - unfold trace, ActiveRoleAssignment. rewrite bind_run, Hsubs. cbn [fst snd].
    rewrite Hsub, bind_run. cbn [fst snd].
    rewrite !scopesListed_app, Ht1.
    pose proof (roleEligibilitySchedules_scopes w s ("subscriptions/" +:+ id) Hclient)
      as Ht2.
    unfold trace in Ht2. rewrite Ht2.
    destruct (roleEligibilitySchedules w s _) as [[res [err|]] t2]; [done|].
    cbn [fst snd].
    destruct (res !! roleDisplayName) as [re|]; [|done].
    destruct re as [[[i|] [[[[[rdef|]]|] [rd|]]|]]|]; try done.
    cbn iota beta.
    destruct (NewUUID w) as [err|guid]; [done|].
    destruct (NewRoleAssignmentScheduleRequestsClient w); [done|].
    rewrite emit_run. cbn [fst snd].
    destruct (CreateResult w _ _ _) as [err|resp]; [done|].
    by destruct (armauthorization.MarshalIndent resp).
Qed.

Lemma scope_formats_differ_witness :
  scopesListed (trace (RolesForSubscription Sample.w Sample.session "Prod")) =
    ["/subscriptions/sub-1"] ∧
  scopesListed (trace (ActiveRoleAssignment Sample.w Sample.session "Prod" "Reader"
                                            "on-call" (90 * Minute))) =
    ["subscriptions/sub-1"] ∧
  "/subscriptions/sub-1" ≠ "subscriptions/sub-1".
Proof.
  apply (scope_formats_differ Sample.w Sample.session "Prod" "Reader" "on-call"
           (90 * Minute)
           (result (Subscriptions Sample.w Sample.session)).1
           (trace (Subscriptions Sample.w Sample.session)) "sub-1").
  - vm_compute. reflexivity.
  - vm_compute. reflexivity.
  - reflexivity.
Defined.

(** ** Binary64 arithmetic on integers *)

Lemma pow2_pos (n : Z) : 0 <= n -> 0 < 2 ^ n.
Proof. intros. by apply Z.pow_pos_nonneg. Qed.

Lemma pow2_split (a b : Z) : 0 <= a -> 0 <= b -> 2 ^ (a + b) = 2 ^ a * 2 ^ b.
Proof. intros. by apply Z.pow_add_r. Qed.

Lemma digits2_pos_bounds (p : positive) :
  2 ^ (Zpos (digits2_pos p) - 1) <= Zpos p < 2 ^ Zpos (digits2_pos p).
Proof.
  induction p as [p IH|p IH|]; simpl digits2_pos; [| |simpl; lia];
    rewrite Pos2Z.inj_succ;
    replace (Z.succ (Zpos (digits2_pos p)) - 1) with (Zpos (digits2_pos p)) by lia;
    rewrite Z.pow_succ_r by lia;
    (assert (2 ^ Zpos (digits2_pos p) = 2 * 2 ^ (Zpos (digits2_pos p) - 1)) as E
      by (rewrite <- Z.pow_succ_r by lia; f_equal; lia));
    lia.
Qed.

Lemma digits2_pos_unique (p : positive) (d : Z) :
  2 ^ (d - 1) <= Zpos p < 2 ^ d -> Zpos (digits2_pos p) = d.
Proof.
  intros [Hlo Hhi]. pose proof (digits2_pos_bounds p) as [Blo Bhi].
  set (d' := Zpos (digits2_pos p)) in *.
  assert (0 < d') as Hd' by (subst d'; lia).
  assert (0 < d) as Hd.
  { destruct (Z.ltb_spec 0 d) as [|Hle]; [done|].
    assert (2 ^ d <= 1); [|lia].
    destruct (Z.eq_dec d 0) as [->|]; [simpl; lia|].
    rewrite Z.pow_neg_r by lia. lia. }
  destruct (Z.lt_trichotomy d' d) as [Hlt|[Heq|Hgt]]; [|done|].
  - assert (2 ^ d' <= 2 ^ (d - 1)) by (apply Z.pow_le_mono_r; lia). lia.
  - assert (2 ^ d <= 2 ^ (d' - 1)) by (apply Z.pow_le_mono_r; lia). lia.
Qed.

Lemma iter_xO (p k : positive) : Zpos (Pos.iter xO p k) = Zpos p * 2 ^ Zpos k.
Proof.
  revert p. induction k using Pos.peano_ind; intros p.
  - simpl. lia.
  - rewrite Pos.iter_succ. rewrite Pos2Z.inj_xO, IHk, Pos2Z.inj_succ, Z.pow_succ_r by lia. lia.
Qed.

(** [iter_pos] is plain iteration. *)
Lemma iter_pos_iter {A} (f : A -> A) (n : positive) (x : A) :
  iter_pos f n x = Pos.iter f x n.
Proof.
  revert x. induction n as [n IH|n IH|]; intros x; simpl; try done.
  - by rewrite !IH, !Pos.iter_swap.
  - by rewrite !IH.
Qed.

(** Shifting an integer right by [n], remembering the last bit shifted out
    and whether anything below it was set. *)
Lemma shr_1_spec (m : Z) (r s : bool) :
  0 <= m ->
  shr_1 {| shr_m := m; shr_r := r; shr_s := s |} =
  {| shr_m := m / 2; shr_r := Z.odd m; shr_s := r || s |}.
Proof.
  intros Hm. destruct m as [|[p|p|]|p]; try done; simpl.
  - f_equal. rewrite Pos2Z.inj_xI. apply Z.div_unique with 1; lia.
  - f_equal. rewrite Pos2Z.inj_xO. apply Z.div_unique with 0; lia.
Qed.

Lemma iter_shr_1 (n : positive) (m : Z) (r s : bool) :
  0 <= m ->
  ∃ s', iter_pos shr_1 n {| shr_m := m; shr_r := r; shr_s := s |} =
        {| shr_m := m / 2 ^ Zpos n;
           shr_r := Z.odd (m / 2 ^ (Zpos n - 1));
           shr_s := s' |}.
Proof.
  rewrite iter_pos_iter. revert m r s.
  induction n as [|n IH] using Pos.peano_ind; intros m r s Hm.
  - exists (r || s). change (Pos.iter shr_1 ?x 1) with (shr_1 x).
    rewrite shr_1_spec by done. by rewrite Z.div_1_r.
  - rewrite Pos.iter_succ_r, shr_1_spec by done.
    destruct (IH (m / 2) (Z.odd m) (r || s)) as [s' ->]; [by apply Z.div_pos|].
    exists s'. rewrite Pos2Z.inj_succ.
    rewrite !Z.div_div by (try apply pow2_pos; lia).
    replace (Z.succ (Zpos n) - 1) with (Z.succ (Zpos n - 1)) by lia.
    rewrite !Z.pow_succ_r by lia. done.
Qed.

Lemma fexp_normal (e : Z) : -1021 <= e -> fexp 53 1024 e = e - 53.
Proof. intros. unfold fexp, emin. lia. Qed.



Lemma round_nearest_even_cases (m : Z) (l : location) :
  round_nearest_even m l = m ∨
  (round_nearest_even m l = m + 1 ∧ (l = loc_Inexact Eq ∨ l = loc_Inexact Gt)).
Proof.
  destruct l as [|[| |]]; simpl; auto.
  destruct (Z.even m); auto.
Qed.

Lemma loc_of_shr_record_of_loc (m : Z) (l : location) :
  loc_of_shr_record (shr_record_of_loc m l) = l.
Proof. by destruct l as [|[| |]]. Qed.

Lemma shr_record_of_loc_m (m : Z) (l : location) :
  ∃ r s, shr_record_of_loc m l = {| shr_m := m; shr_r := r; shr_s := s |}.
Proof. destruct l as [|[| |]]; simpl; eauto. Qed.

Lemma loc_round_bit (m : Z) (r s : bool) (l : location) :
  loc_of_shr_record {| shr_m := m; shr_r := r; shr_s := s |} = l ->
  l = loc_Inexact Eq ∨ l = loc_Inexact Gt -> r = true.
Proof. destruct r, s; simpl; intros <- [?|?]; congruence. Qed.

(** Rounding a positive mantissa of at least 53 bits, away from the ends of
    the exponent range: the mantissa is cut to its 53 leading bits and
    possibly incremented. *)
Lemma binary_round_aux_normal (sx : bool) (m : positive) (e : Z) (l : location) :
  let n := Zpos (digits2_pos m) - 53 in
  0 <= n -> -1000 <= e -> e + n <= 900 ->
  ∃ rnd : positive,
    (Zpos rnd = Zpos m / 2 ^ n ∨ (Zpos rnd = Zpos m / 2 ^ n + 1 ∧ round_bit m l)) ∧
    binary_round_aux 53 1024 sx (Zpos m) e l = renorm sx rnd (e + n).
Proof.
  intros n Hn He Hen.
  pose proof (digits2_pos_bounds m) as [Hlo Hhi].
  assert (Zpos (digits2_pos m) = n + 53) as Hd by (subst n; lia).
  rewrite Hd in Hlo, Hhi.
  assert (2 ^ 52 <= Zpos m / 2 ^ n < 2 ^ 53) as [Hqlo Hqhi].
  { replace (n + 53 - 1) with (52 + n) in Hlo by lia.
    replace (n + 53) with (53 + n) in Hhi by lia.
    rewrite pow2_split in Hlo, Hhi by lia.
    pose proof (pow2_pos n Hn).
    split; [apply Z.div_le_lower_bound | apply Z.div_lt_upper_bound]; lia. }
  (* the first shift *)
  assert (∃ m1 r1 s1,
            shr_fexp 53 1024 (Zpos m) e l =
              ({| shr_m := m1; shr_r := r1; shr_s := s1 |}, e + n) ∧
            m1 = Zpos m / 2 ^ n ∧
            (r1 = true -> round_bit m l)) as (m1 & r1 & s1 & Hshr & -> & Hr1).
  { unfold shr_fexp. simpl Zdigits2. rewrite Hd.
    rewrite fexp_normal by lia.
    replace (n + 53 + e - 53 - e) with n by lia.
    unfold shr, round_bit. fold n.
    destruct (shr_record_of_loc_m (Zpos m) l) as (r & s & Hrec).
    destruct n as [|p|p] eqn:Hp; [| |lia].
    - exists (Zpos m), r, s. rewrite Hrec, Z.add_0_r, Z.div_1_r.
      split; [done|]. split; [done|]. intros ->.
      rewrite decide_True by done.
      pose proof (loc_of_shr_record_of_loc (Zpos m) l) as Hl. rewrite Hrec in Hl.
      destruct s; simpl in Hl; subst l; auto.
    - rewrite Hrec. destruct (iter_shr_1 p (Zpos m) r s) as [s' ->]; [lia|].
      eexists _, _, _. split; [done|]. split; [done|].
      intros Hodd. by rewrite decide_False by lia. }
  unfold binary_round_aux. rewrite Hshr. cbn [shr_m].
  set (l1 := loc_of_shr_record _).
  assert (∃ rnd : positive,
            round_nearest_even (Zpos m / 2 ^ n) l1 = Zpos rnd ∧
            (Zpos rnd = Zpos m / 2 ^ n ∨
             (Zpos rnd = Zpos m / 2 ^ n + 1 ∧ round_bit m l))) as (rnd & Hrnd & Hcases).
  { destruct (round_nearest_even_cases (Zpos m / 2 ^ n) l1) as [Hr|[Hr Hl1]].
    - exists (Z.to_pos (Zpos m / 2 ^ n)). rewrite Hr, Z2Pos.id by lia. auto.
    - exists (Z.to_pos (Zpos m / 2 ^ n + 1)). rewrite Hr, Z2Pos.id by lia.
      split; [done|]. right. split; [done|]. apply Hr1.
      by eapply loc_round_bit. }
  exists rnd. split; [done|]. rewrite Hrnd.
  assert (Zpos rnd <= 2 ^ 53) as Hle by lia.
  unfold renorm, shr_fexp. simpl Zdigits2.
  destruct (Z.ltb_spec (Zpos rnd) (2 ^ 53)) as [Hlt|Hge].
  - rewrite (digits2_pos_unique rnd 53) by lia.
    rewrite fexp_normal by lia.
    replace (53 + (e + n) - 53 - (e + n)) with 0 by lia.
    simpl. by rewrite (proj2 (Z.leb_le (e + n) (1024 - 53))) by lia.
  - assert (rnd = (2 ^ 53)%positive) as -> by lia.
    replace (digits2_pos (2 ^ 53)) with 54%positive by (by vm_compute).
    rewrite fexp_normal by lia.
    replace (54 + (e + n) - 53 - (e + n)) with 1 by lia.
    unfold shr_record_of_loc, shr. change (iter_pos shr_1 1 ?x) with (shr_1 x).
    rewrite shr_1_spec by lia. cbn [shr_m].
    replace (Zpos (2 ^ 53) / 2) with (Zpos (2 ^ 52)) by (by vm_compute).
    by rewrite (proj2 (Z.leb_le (e + n + 1) (1024 - 53))) by lia.
Qed.

Lemma renorm_exact (sx : bool) (m : positive) (e : Z) :
  Zpos m < 2 ^ 53 -> renorm sx m e = S754_finite sx m e.
Proof. intros Hm. unfold renorm. by rewrite (proj2 (Z.ltb_lt _ _)) by done. Qed.

(** [float64(n)] for an integer that fits the mantissa is exact: the
    mantissa is [n] shifted up to 53 bits. *)
Lemma binary_round_int (sx : bool) (p : positive) :
  let d := Zpos (digits2_pos p) in
  Zpos p < 2 ^ 53 ->
  ∃ m : positive,
    binary_round 53 1024 sx p 0 = S754_finite sx m (d - 53) ∧
    Zpos m = Zpos p * 2 ^ (53 - d) ∧
    Zpos (digits2_pos m) = 53.
Proof.
  intros d Hp.
  pose proof (digits2_pos_bounds p) as [Hlo Hhi]. fold d in Hlo, Hhi.
  assert (1 <= d <= 53) as Hd.
  { split; [subst d; lia|].
    destruct (Z.leb_spec d 53) as [|Hgt]; [done|].
    assert (2 ^ 53 <= 2 ^ (d - 1)) by (apply Z.pow_le_mono_r; lia). lia. }
  assert (∃ m : positive,
            shl_align p 0 (fexp 53 1024 (d + 0)) = (m, d - 53) ∧
            Zpos m = Zpos p * 2 ^ (53 - d)) as (m & Halign & Hm).
  { unfold shl_align. rewrite fexp_normal by lia.
    destruct (d + 0 - 53 - 0) as [|k|k] eqn:Hk; [|lia|].
    - exists p. replace (d - 53) with 0 by lia. split; [done|].
      replace (53 - d) with 0 by lia. lia.
    - exists (Pos.iter xO p k). replace (d + 0 - 53) with (d - 53) by lia.
      split; [done|]. rewrite iter_xO. do 2 f_equal. lia. }
  assert (Zpos (digits2_pos m) = 53) as Hdm.
  { apply digits2_pos_unique. rewrite Hm.
    assert (2 ^ (53 - 1) = 2 ^ (d - 1) * 2 ^ (53 - d)) as ->
      by (rewrite <- pow2_split by lia; f_equal; lia).
    assert (2 ^ 53 = 2 ^ d * 2 ^ (53 - d)) as ->
      by (rewrite <- pow2_split by lia; f_equal; lia).
    pose proof (pow2_pos (53 - d)). nia. }
  exists m. split; [|done].
  unfold binary_round. fold d. rewrite Halign.
  destruct (binary_round_aux_normal sx m (d - 53) loc_Exact) as (rnd & Hrnd & ->);
    [lia..|].
  rewrite Hdm in *. replace (53 - 53) with 0 in * by lia.
  rewrite Z.add_0_r, Z.div_1_r in *.
  destruct Hrnd as [Hrnd|[_ Hbit]].
  - injection Hrnd as ->. apply renorm_exact.
    pose proof (digits2_pos_bounds m). rewrite Hdm in *. lia.
  - unfold round_bit in Hbit. rewrite Hdm in Hbit. simpl in Hbit.
    by destruct Hbit.
Qed.

Lemma SFdiv_core_normal (m1 m2 : positive) (e1 e2 : Z) :
  Zpos (digits2_pos m1) = 53 -> Zpos (digits2_pos m2) = 53 ->
  -900 <= e1 - e2 <= 900 ->
  SFdiv_core_binary 53 1024 (Zpos m1) e1 (Zpos m2) e2 =
  (Zpos m1 * 2 ^ 53 / Zpos m2, e1 - e2 - 53,
   new_location (Zpos m2) ((Zpos m1 * 2 ^ 53) mod Zpos m2)).
Proof.
  intros Hd1 Hd2 He. unfold SFdiv_core_binary.
  change (Zdigits2 (Zpos ?p)) with (Zpos (digits2_pos p)).
  rewrite Hd1, Hd2.
  replace (53 + e1 - (53 + e2)) with (e1 - e2) by lia.
  rewrite fexp_normal by lia.
  replace (Z.min (e1 - e2 - 53) (e1 - e2)) with (e1 - e2 - 53) by lia.
  replace (e1 - e2 - (e1 - e2 - 53)) with 53 by lia.
  rewrite Z.shiftl_mul_pow2 by lia.
  unfold Z.div, Z.modulo.
  by destruct (Z.div_eucl (Zpos m1 * 2 ^ 53) (Zpos m2)).
Qed.


Lemma float_minute :
  binary_normalize 53 1024 Minute 0 false = S754_finite false 7864320000000000 (-17).
Proof. by vm_compute. Qed.

(** The fraction of a minute: dividing a whole number of nanoseconds below a
    minute by a minute gives a normal float below [1 - 2^-36]. *)
Lemma div_by_minute (sx : bool) (r : positive) :
  Zpos r < Minute ->
  ∃ (mx : positive) (ex : Z),
    SFdiv 53 1024 (binary_round 53 1024 sx r 0)
                  (binary_normalize 53 1024 Minute 0 false) =
      S754_finite sx mx ex ∧
    2 ^ 52 <= Zpos mx < 2 ^ 53 ∧
    -88 <= ex <= -53 ∧
    Zpos mx * 2 ^ (ex + 89) < 2 ^ 89 - 2 ^ 53.
Proof.
  intros Hr. change Minute with 60000000000 in Hr.
  pose proof (digits2_pos_bounds r) as [Hlo Hhi].
  destruct (binary_round_int sx r) as (m1 & -> & Hm1 & Hd1); [lia|].
  set (dr := Zpos (digits2_pos r)) in *.
  assert (1 <= dr <= 36) as Hdr.
  { split; [subst dr; lia|].
    destruct (Z.leb_spec dr 36) as [|Hgt]; [done|].
    assert (2 ^ 36 <= 2 ^ (dr - 1)) by (apply Z.pow_le_mono_r; lia). lia. }
  pose proof (digits2_pos_bounds m1) as [Hm1lo Hm1hi]. rewrite Hd1 in Hm1lo, Hm1hi.
  rewrite float_minute.
  set (m2 := 7864320000000000%positive).
  assert (Zpos (digits2_pos m2) = 53) as Hd2 by (by vm_compute).
  assert (Zpos m2 = 7864320000000000) as Hm2 by done.
  unfold SFdiv. rewrite SFdiv_core_normal by (try done; lia).
  replace (dr - 53 - -17 - 53) with (dr - 89) by lia.
  pose proof (Z.div_mod (Zpos m1 * 2 ^ 53) (Zpos m2) ltac:(lia)) as Hdiv.
  pose proof (Z.mod_pos_bound (Zpos m1 * 2 ^ 53) (Zpos m2) ltac:(lia)) as Hmod.
  set (Q := Zpos m1 * 2 ^ 53 / Zpos m2) in *.
  set (R := (Zpos m1 * 2 ^ 53) mod Zpos m2) in *.
  clearbody Q R. clearbody m2.
  assert (2 ^ 52 <= Q < 2 ^ 54) as [HQlo HQhi] by lia.
  destruct Q as [|Q|Q]; [lia| |lia].
  pose proof (digits2_pos_bounds Q) as [HdQlo HdQhi].
  set (dQ := Zpos (digits2_pos Q)) in *.
  assert (53 <= dQ <= 54) as HdQ.
  { split.
    - destruct (Z.leb_spec 53 dQ) as [|Hlt]; [done|].
      assert (2 ^ dQ <= 2 ^ 52) by (apply Z.pow_le_mono_r; lia). lia.
    - destruct (Z.leb_spec dQ 54) as [|Hgt]; [done|].
      assert (2 ^ 54 <= 2 ^ (dQ - 1)) by (apply Z.pow_le_mono_r; lia). lia. }
  destruct (binary_round_aux_normal (xorb sx false) Q (dr - 89)
              (new_location (Zpos m2) R)) as (rnd & Hrnd & ->); [fold dQ; lia..|].
  fold dQ. fold dQ in Hrnd. rewrite xorb_false_r.
  set (n := dQ - 53) in *.
  (* the value of the rounded quotient, in units of 2^-89 *)
  assert (Zpos Q * Zpos m2 <= Zpos m1 * 2 ^ 53) as HQm by lia.
  assert (Zpos rnd * 2 ^ n <= Zpos Q + 2 ^ n) as Hval.
  { pose proof (pow2_pos n ltac:(lia)) as Hn.
    pose proof (Z.mul_div_le (Zpos Q) (2 ^ n) Hn). lia. }
  assert (2 ^ 52 <= Zpos rnd <= 2 ^ 53) as Hrange.
  { assert (2 ^ 52 <= Zpos Q / 2 ^ n < 2 ^ 53); [|lia].
    pose proof (pow2_pos n ltac:(lia)) as Hn.
    assert (n = 0 ∨ n = 1) as [Hn0|Hn1] by lia.
    - rewrite Hn0 in *. rewrite Z.div_1_r.
      assert (dQ = 53) as HdQ53 by lia. rewrite HdQ53 in *. lia.
    - rewrite Hn1 in *. change (2 ^ 1) with 2.
      assert (dQ = 54) as HdQ54 by lia. rewrite HdQ54 in *.
      split; [apply Z.div_le_lower_bound | apply Z.div_lt_upper_bound]; lia. }
  assert (Zpos rnd * 2 ^ (n + dr) < 2 ^ 89 - 2 ^ 53) as Hbound.
  { rewrite pow2_split by lia.
    assert (Zpos m1 * 2 ^ dr = Zpos r * 2 ^ 53) as Hm1r.
    { rewrite Hm1, <- Z.mul_assoc, <- pow2_split by lia. do 2 f_equal. lia. }
    assert (2 ^ n <= 2) as Hn2.
    { change 2 with (2 ^ 1) at 2. apply Z.pow_le_mono_r; lia. }
    assert (2 ^ dr <= 2 ^ 36) as Hdr2 by (apply Z.pow_le_mono_r; lia).
    pose proof (pow2_pos dr ltac:(lia)) as Hdrpos.
    pose proof (pow2_pos n ltac:(lia)) as Hnpos.
    (* Q * 2^dr * m2 <= r * 2^106 *)
    assert (Zpos Q * 2 ^ dr * Zpos m2 <= Zpos r * 2 ^ 106) as HQr.
    { replace (Zpos Q * 2 ^ dr * Zpos m2) with (Zpos Q * Zpos m2 * 2 ^ dr) by lia.
      replace (Zpos r * 2 ^ 106) with (Zpos m1 * 2 ^ dr * 2 ^ 53) by (rewrite Hm1r; lia).
      nia. }
    assert (Zpos rnd * 2 ^ n * 2 ^ dr <= Zpos Q * 2 ^ dr + 2 ^ 37) as Hstep.
    { assert (2 ^ n * 2 ^ dr <= 2 ^ 37) by (change (2 ^ 37) with (2 * 2 ^ 36); nia).
      nia. }
    assert ((Zpos Q * 2 ^ dr + 2 ^ 37) * Zpos m2 < (2 ^ 89 - 2 ^ 53) * Zpos m2);
      [|nia].
    lia. }
  unfold renorm. destruct (Z.ltb_spec (Zpos rnd) (2 ^ 53)) as [Hlt|Hge].
  - exists rnd, (dr - 89 + n).
    replace (dr - 89 + n + 89) with (n + dr) by lia.
    split; [done|]. split; [lia|]. split; [|done].
    split; [lia|].
    destruct (Z.leb_spec (dr - 89 + n) (-53)) as [|Hgt]; [done|].
    assert (2 ^ 37 <= 2 ^ (n + dr)) by (apply Z.pow_le_mono_r; lia). nia.
  - assert (Zpos rnd = 2 ^ 53) as Hrnd53 by lia.
    exists (2 ^ 52)%positive, (dr - 89 + n + 1).
    replace (dr - 89 + n + 1 + 89) with (1 + (n + dr)) by lia.
    rewrite pow2_split by lia.
    split; [done|]. split; [lia|]. split; [|lia].
    split; [lia|].
    destruct (Z.leb_spec (dr - 89 + n + 1) (-53)) as [|Hgt]; [done|].
    assert (2 ^ 36 <= 2 ^ (n + dr)) by (apply Z.pow_le_mono_r; lia). nia.
Qed.

Lemma shl_align_left (m : positive) (e e' : Z) :
  e' < e ->
  ∃ m', shl_align m e e' = (m', e') ∧ Zpos m' = Zpos m * 2 ^ (e - e').
Proof.
  intros He. unfold shl_align.
  destruct (e' - e) as [|k|k] eqn:Hk; [lia..|].
  exists (Pos.iter xO m k). split; [done|].
  rewrite iter_xO. do 2 f_equal. lia.
Qed.

Lemma shl_align_id (m : positive) (e e' : Z) :
  e <= e' -> shl_align m e e' = (m, e).
Proof.
  intros He. unfold shl_align.
  destruct (e' - e) as [|k|k] eqn:Hk; [done..|lia].
Qed.

Lemma binary_normalize_signed (sx : bool) (S : positive) (e : Z) :
  binary_normalize 53 1024 (cond_Zopp sx (Zpos S)) e false =
  binary_round 53 1024 sx S e.
Proof. by destruct sx. Qed.

(** Adding the fraction of a minute to a whole number of minutes below
    [2^18] gives a float whose integer part is that whole number. *)
Lemma add_whole_fraction (sx : bool) (q mx : positive) (ex : Z) :
  Zpos q < 2 ^ 18 ->
  2 ^ 52 <= Zpos mx < 2 ^ 53 ->
  -88 <= ex <= -53 ->
  Zpos mx * 2 ^ (ex + 89) < 2 ^ 89 - 2 ^ 53 ->
  ∃ (m : positive) (e : Z),
    SFadd 53 1024 (binary_round 53 1024 sx q 0) (S754_finite sx mx ex) =
      S754_finite sx m e ∧
    e < 0 ∧ Zpos m / 2 ^ (- e) = Zpos q.
Proof.
  intros Hq Hmx Hex Hbound.
  pose proof (digits2_pos_bounds q) as [Hqlo Hqhi].
  destruct (binary_round_int sx q) as (mq & -> & Hmq & _); [lia|].
  set (dq := Zpos (digits2_pos q)) in *.
  assert (1 <= dq <= 18) as Hdq.
  { split; [subst dq; lia|].
    destruct (Z.leb_spec dq 18) as [|Hgt]; [done|].
    assert (2 ^ 18 <= 2 ^ (dq - 1)) by (apply Z.pow_le_mono_r; lia). lia. }
  set (E := - ex). set (T := 2 ^ (53 - dq)). set (n := dq + E - 53).
  assert (1 <= n) as Hn by (subst n E; lia).
  assert (0 < T) as HT by (apply pow2_pos; lia).
  assert (0 < 2 ^ n) as H2n by (apply pow2_pos; lia).
  assert (2 ^ E = T * 2 ^ n) as HE.
  { subst T. rewrite <- pow2_split by lia. f_equal. lia. }
  assert (Zpos mx * 2 ^ 36 < (2 ^ 36 - 1) * 2 ^ E) as HB.
  { assert (0 < 2 ^ (E - 53)) as Hp by (apply pow2_pos; subst E; lia).
    assert (2 ^ (ex + 89) * 2 ^ (E - 53) = 2 ^ 36) as H1.
    { rewrite <- pow2_split by (subst E; lia). f_equal. subst E. lia. }
    assert (2 ^ 53 * 2 ^ (E - 53) = 2 ^ E) as H2.
    { rewrite <- pow2_split by (subst E; lia). f_equal. lia. }
    assert (2 ^ 89 * 2 ^ (E - 53) = 2 ^ 36 * 2 ^ E) as H3.
    { rewrite <- !pow2_split by (subst E; lia). f_equal. lia. }
    nia. }
  assert (Zpos mx < 2 ^ E) as HmxE.
  { assert (2 ^ 53 <= 2 ^ E) by (apply Z.pow_le_mono_r; subst E; lia). lia. }
  (* the sum of the aligned mantissas *)
  unfold SFadd. replace (Z.min (dq - 53) ex) with ex by lia.
  destruct (shl_align_left mq (dq - 53) ex) as (mq' & -> & Hmq'); [lia|].
  rewrite shl_align_id by lia. cbn [fst].
  replace (cond_Zopp sx (Zpos mq') + cond_Zopp sx (Zpos mx))
    with (cond_Zopp sx (Zpos (mq' + mx))) by (by destruct sx).
  rewrite binary_normalize_signed.
  set (S := (mq' + mx)%positive).
  assert (Zpos S = Zpos q * T * 2 ^ n + Zpos mx) as HS.
  { subst S. rewrite Pos2Z.inj_add, Hmq', Hmq. f_equal.
    rewrite <- !Z.mul_assoc. f_equal. subst T. rewrite <- !pow2_split by (subst n E; lia).
    f_equal. subst n E. lia. }
  clearbody S.
  assert (Zpos (digits2_pos S) = n + 53) as HdS.
  { apply digits2_pos_unique.
    replace (n + 53 - 1) with ((dq - 1) + E) by (subst n; lia).
    replace (n + 53) with (dq + E) by (subst n; lia).
    rewrite !pow2_split by (subst E; lia). rewrite HS, <- Z.mul_assoc, <- HE.
    pose proof (pow2_pos E ltac:(subst E; lia)). nia. }
  unfold binary_round.
  rewrite HdS, fexp_normal by lia.
  rewrite shl_align_id by lia.
  destruct (binary_round_aux_normal sx S ex loc_Exact) as (rnd & Hrnd & ->);
    [rewrite ?HdS; subst n E; lia..|].
  rewrite HdS in *. replace (n + 53 - 53) with n in * by lia.
  assert (Zpos S / 2 ^ n = Zpos q * T + Zpos mx / 2 ^ n) as Hdiv.
  { rewrite HS. apply Z.div_add_l. lia. }
  assert (0 <= Zpos mx / 2 ^ n < T) as Hfrac.
  { split; [apply Z.div_pos; lia|]. apply Z.div_lt_upper_bound; lia. }
  assert (Zpos q * T <= Zpos rnd < (Zpos q + 1) * T) as Hrange.
  { destruct Hrnd as [Hrnd|[Hrnd Hbit]]; [lia|].
    split; [lia|].
    destruct (Z.ltb_spec (Zpos mx / 2 ^ n + 1) T) as [|Hmax]; [lia|].
    exfalso.
    assert (Zpos mx / 2 ^ n = T - 1) as Hfloor by lia.
    assert ((T - 1) * 2 ^ n <= Zpos mx) as Hmxlo.
    { rewrite <- Hfloor. rewrite Z.mul_comm. apply Z.mul_div_le. lia. }
    assert (T < 2 ^ 36) as HT36 by nia.
    assert (dq = 18) as Hdq18.
    { destruct (Z.eq_dec dq 18) as [|Hne]; [done|].
      assert (2 ^ 36 <= T); [|lia]. subst T. apply Z.pow_le_mono_r; lia. }
    assert (T = 2 ^ 35) as HT35 by (subst T; rewrite Hdq18; done).
    unfold round_bit in Hbit. rewrite HdS in Hbit.
    replace (n + 53 - 53) with n in Hbit by lia.
    rewrite decide_False in Hbit by lia.
    assert (2 ^ n = 2 * 2 ^ (n - 1)) as Hn1.
    { rewrite <- Z.pow_succ_r by lia. f_equal. lia. }
    assert (0 < 2 ^ (n - 1)) as Hn1pos by (apply pow2_pos; lia).
    assert (Zpos S / 2 ^ (n - 1) = 2 * (Zpos q * T + T - 1)) as Heven.
    { symmetry. apply Z.div_unique with (Zpos mx - (2 * T - 2) * 2 ^ (n - 1)); [|nia].
      left. split; [nia|].
      assert (Zpos mx * 2 < (2 ^ 36 - 1) * 2 ^ n); [|nia].
      rewrite HE, HT35 in HB.
      change (2 ^ 36) with (2 ^ 35 * 2) in HB at 1. nia. }
    rewrite Heven, Z.odd_mul in Hbit. done. }
  assert ((Zpos q + 1) * T <= 2 ^ 53) as Htop.
  { replace 53 with (dq + (53 - dq)) by lia. rewrite pow2_split by lia.
    fold T. nia. }
  rewrite renorm_exact by lia.
  exists rnd, (ex + n). split; [done|].
  assert (- (ex + n) = 53 - dq) as -> by (subst n E; lia).
  split; [subst n E; lia|]. fold T.
  symmetry. apply Z.div_unique with (Zpos rnd - Zpos q * T); lia.
Qed.

(** ** Whole minutes of a duration *)

Lemma to_int_finite (s : bool) (m : positive) (e : Z) :
  e < 0 ->
  Zpos m / 2 ^ (- e) < 2 ^ 63 ->
  float64.to_int (S754_finite s m e) = cond_Zopp s (Zpos m / 2 ^ (- e)).
Proof.
  intros He Hm. unfold float64.to_int.
  destruct e as [|p|p]; [lia..|].
  rewrite Z.shiftr_div_pow2 by lia. change (- Z.neg p) with (Zpos p) in *.
  assert (0 <= Zpos m / 2 ^ Zpos p) by (apply Z.div_pos; [|apply pow2_pos]; lia).
  rewrite bool_decide_eq_true_2; [done|].
  unfold MinInt64, MaxInt64. destruct s; simpl; lia.
Qed.

(** For a magnitude below [2^18] minutes, taken with either sign, the
    integer [int(duration.Minutes())] is the whole number of minutes. *)
Lemma Minutes_whole (s : bool) (a : positive) :
  Zpos a < 2 ^ 18 * Minute ->
  float64.to_int
    (float64.add (float64.of_int (cond_Zopp s (Zpos a / Minute)))
                 (float64.div (float64.of_int (cond_Zopp s (Zpos a `mod` Minute)))
                              (float64.of_int (60 * 1000000000)))) =
  cond_Zopp s (Zpos a / Minute).
Proof.
  intros Ha.
  assert (0 <= Zpos a / Minute < 2 ^ 18) as Hq.
  { split; [by apply Z.div_pos|]. by apply Z.div_lt_upper_bound. }
  pose proof (Z.mod_pos_bound (Zpos a) Minute ltac:(done)) as Hr.
  unfold float64.add, float64.div, float64.of_int, float64.prec, float64.emax.
  change (60 * 1000000000) with Minute.
  destruct (Zpos a `mod` Minute) as [|r|r] eqn:Er; [| |lia];
    destruct (Zpos a / Minute) as [|q|q] eqn:Eq; try lia.
  - by destruct s.
  - replace (cond_Zopp s 0) with 0 by (by destruct s).
    rewrite binary_normalize_signed.
    destruct (binary_round_int s q) as (mq & -> & Hmq & Hdq); [lia|].
    rewrite float_minute.
    change (SFdiv 53 1024 (binary_normalize 53 1024 0 0 false) ?x) with (S754_zero false).
    change (SFadd 53 1024 ?x (S754_zero false)) with x.
    pose proof (digits2_pos_bounds q) as [Hlo Hhi].
    set (dq := Zpos (digits2_pos q)) in *.
    assert (1 <= dq <= 18) as Hdq18.
    { split; [subst dq; lia|].
      destruct (Z.leb_spec dq 18) as [|Hgt]; [done|].
      assert (2 ^ 18 <= 2 ^ (dq - 1)) by (apply Z.pow_le_mono_r; lia). lia. }
    assert (Zpos mq / 2 ^ (- (dq - 53)) = Zpos q) as Hval.
    { replace (- (dq - 53)) with (53 - dq) by lia. rewrite Hmq.
      apply Z.div_mul. pose proof (pow2_pos (53 - dq)). lia. }
    rewrite to_int_finite by lia. by rewrite Hval.
  - replace (cond_Zopp s 0) with 0 by (by destruct s).
    rewrite binary_normalize_signed.
    destruct (div_by_minute s r) as (mx & ex & -> & Hmx & Hex & _); [lia|].
    change (SFadd 53 1024 (binary_normalize 53 1024 0 0 false) ?x) with x.
    assert (Zpos mx / 2 ^ (- ex) = 0) as Hval.
    { apply Z.div_small.
      assert (2 ^ 53 <= 2 ^ (- ex)) by (apply Z.pow_le_mono_r; lia). lia. }
    rewrite to_int_finite by lia. rewrite Hval. by destruct s.
  - rewrite !binary_normalize_signed.
    destruct (div_by_minute s r) as (mx & ex & -> & Hmx & Hex & Hbound); [lia|].
    destruct (add_whole_fraction s q mx ex) as (m & e & -> & He & Hval);
      [first [done | lia]..|].
    rewrite to_int_finite by lia. by rewrite Hval.
Qed.

(** Below [2^18] minutes in magnitude, [int(duration.Minutes())] is the
    duration divided by a minute, truncated towards zero. *)
Lemma Minutes_truncates (d : Duration) :
  - (2 ^ 18 * Minute) < d < 2 ^ 18 * Minute ->
  float64.to_int (Minutes d) = Z.quot d Minute.
Proof.
  intros Hd. unfold Minutes. destruct d as [|a|a].
  - by vm_compute.
  - rewrite Z.quot_div_nonneg, Z.rem_mod_nonneg by done.
    apply (Minutes_whole false a). lia.
  - change (Z.neg a) with (- Zpos a).
    rewrite Z.quot_opp_l, Z.rem_opp_l by done.
    rewrite Z.quot_div_nonneg, Z.rem_mod_nonneg by done.
    apply (Minutes_whole true a). lia.
Qed.

(** C3, as the code has it.  For every duration of less than [2^18] minutes
    (about 182 days) in either direction, the expiration is serialized as
    "PT", the decimal numeral of the duration divided by a minute and
    truncated towards zero, and "M", and that string is the duration of the
    request [ActiveRoleAssignment] builds.  Zero and negative durations go
    through the same serialization; nothing is validated or rejected. *)
Theorem expirationDuration_truncates (d : Duration) :
  - (2 ^ 18 * Minute) < d < 2 ^ 18 * Minute ->
  expirationDuration d = "PT" +:+ pretty (Z.quot d Minute) +:+ "M" ∧
  ∀ (s : Session) (re_ID re_RoleDefinitionID : option string)
    (justifiction : string) (startTime : Time),
    requestDuration (buildRequest s re_ID re_RoleDefinitionID justifiction d startTime) =
      Some ("PT" +:+ pretty (Z.quot d Minute) +:+ "M").
Proof.
  intros Hd.
  assert (expirationDuration d = "PT" +:+ pretty (Z.quot d Minute) +:+ "M") as H
    by (unfold expirationDuration; by rewrite Minutes_truncates).
  split; [done|]. intros s re_ID re_RoleDefinitionID justifiction startTime.
  unfold requestDuration, buildRequest. simpl. by rewrite H.
Qed.

Lemma expirationDuration_truncates_witness :
  expirationDuration (90 * Second) = "PT1M" ∧
  expirationDuration (- (90 * Second)) = "PT-1M".
Proof.
  split.
  - apply (expirationDuration_truncates (90 * Second)).
    vm_compute. split; reflexivity.
  - apply (expirationDuration_truncates (- (90 * Second))).
    vm_compute. split; reflexivity.
Defined.

(** The serializations the specification lists. *)
Lemma expirationDuration_examples :
  expirationDuration (90 * Minute) = "PT90M" ∧
  expirationDuration (90 * Second) = "PT1M" ∧
  expirationDuration 0 = "PT0M" ∧
  expirationDuration (- (90 * Second)) = "PT-1M" ∧
  expirationDuration (- (90 * Minute)) = "PT-90M".
Proof. by vm_compute. Qed.

(** C3, as the specification states it, fails: the float64 sum in
    [Duration.Minutes] rounds 262144 minutes and 59.999999999 seconds up to
    262145 minutes, which the conversion to [int] then keeps. *)
Lemma expirationDuration_rounds_up :
  int64 Sample.almostNextMinute ∧
  Z.quot Sample.almostNextMinute Minute = 262144 ∧
  expirationDuration Sample.almostNextMinute = "PT262145M" ∧
  expirationDuration Sample.almostNextMinute ≠
    "PT" +:+ pretty (Z.quot Sample.almostNextMinute Minute) +:+ "M".
Proof.
  split; [by vm_compute|]. split; [by vm_compute|].
  split; [by vm_compute|]. by vm_compute.
Qed.

(** ** Further properties of the listings *)

Lemma nilRoleName_malformed (v : option armauthorization.RoleEligibilitySchedule) :
  nilRoleName v ↔ wellFormed scheduleEntry v = false.
Proof.
  unfold wellFormed.
  destruct v as [[id [[[[[[[name|]]|]]|] rd]|]]|]; simpl; intuition congruence.
Qed.

(** When the schedule listing is clean up to an entry without the display
    name of its role, [roleEligibilitySchedules] stops on that entry with
    DataIntegrityError and returns the map built so far; when it is clean up
    to a failed page fetch, it returns that error and the map built from the
    pages before it.  In both cases nothing later is fetched. *)
Theorem roleEligibilitySchedules_partial_on_error (w : World) (s : Session)
    (scope : string) (ps ps' : Pager armauthorization.RoleEligibilitySchedule) :
  NewRoleEligibilitySchedulesClient w = None →
  clean scheduleEntry ps = true →
  (∀ vs bad vs',
     forallb (wellFormed scheduleEntry) vs = true →
     nilRoleName bad →
     ListForScope w scope = ps ++ PageOk (vs ++ bad :: vs') :: ps' →
     let before := roleEligibilitySchedules_pages scope (ps ++ [PageOk vs]) ∅ in
     before.1.2 = None ∧
     (∀ name, before.1.1 !! name =
              first_occurrence name (named scheduleEntry (entries ps ++ vs))) ∧
     roleEligibilitySchedules w s scope =
       (before.1.1, Some DataIntegrityError, NewListForScopePager scope :: before.2)) ∧
  (∀ err,
     ListForScope w scope = ps ++ PageErr err :: ps' →
     let before := roleEligibilitySchedules_pages scope ps ∅ in
     before.1.2 = None ∧
     (∀ name, before.1.1 !! name =
              first_occurrence name (named scheduleEntry (entries ps))) ∧
     roleEligibilitySchedules w s scope =
       (before.1.1, Some err,
        NewListForScopePager scope :: before.2 ++ [SchedulesNextPage scope])).
Proof.
  intros Hclient Hps. split.
  - intros vs bad vs' Hvs Hbad%nilRoleName_malformed Hpager before. subst before.
    rewrite roleEligibilitySchedules_aggregate, Hclient, Hpager,
      roleEligibilitySchedules_pages_aggregate.
    assert (clean scheduleEntry (ps ++ [PageOk vs]) = true) as Hc.
    { unfold clean in *. rewrite forallb_app, Hps. simpl. by rewrite Hvs. }
    destruct (aggregate_pages_clean scheduleEntry scheduleWarning
                (SchedulesNextPage scope) (logged_nextPage_schedules scope) _ ∅ Hc)
      as [Hres _].
    rewrite Hres. cbn [fst snd]. split; [done|]. split.
    + intros name. rewrite firstWins_lookup, lookup_empty, entries_app.
      unfold entries at 2. simpl. by rewrite app_nil_r.
    + cbn zeta. rewrite aggregate_pages_stop_entry by done. by rewrite Hres.
  - intros err Hpager before. subst before.
    rewrite roleEligibilitySchedules_aggregate, Hclient, Hpager,
      roleEligibilitySchedules_pages_aggregate.
    destruct (aggregate_pages_clean scheduleEntry scheduleWarning
                (SchedulesNextPage scope) (logged_nextPage_schedules scope) _ ∅ Hps)
      as [Hres _].
    rewrite Hres. cbn [fst snd]. split; [done|]. split.
    + intros name. by rewrite firstWins_lookup, lookup_empty.
    + cbn zeta. rewrite aggregate_pages_stop_page by done. by rewrite Hres.
Qed.

Lemma roleEligibilitySchedules_partial_on_error_witness :
  roleEligibilitySchedules (Sample.world Sample.subscriptions Sample.brokenSchedules)
                           Sample.session "subscriptions/sub-1" =
    ({[ "Contributor" := Sample.sched "e1" "rd1" "Contributor";
        "Reader" := Sample.sched "e2" "rd2" "Reader" ]},
     Some DataIntegrityError,
     [NewListForScopePager "subscriptions/sub-1";
      SchedulesNextPage "subscriptions/sub-1";
      SchedulesNextPage "subscriptions/sub-1"]) ∧
  roleEligibilitySchedules (Sample.world Sample.subscriptions Sample.failingSchedules)
                           Sample.session "subscriptions/sub-1" =
    ({[ "Contributor" := Sample.sched "e1" "rd1" "Contributor" ]},
     Some (sdk_error "context deadline exceeded"),
     [NewListForScopePager "subscriptions/sub-1";
      SchedulesNextPage "subscriptions/sub-1";
      SchedulesNextPage "subscriptions/sub-1"]).
Proof.
  split.
  - destruct (roleEligibilitySchedules_partial_on_error
                (Sample.world Sample.subscriptions Sample.brokenSchedules)
                Sample.session "subscriptions/sub-1"
                [PageOk [Sample.sched "e1" "rd1" "Contributor"]] []
                eq_refl eq_refl) as [H _].
    destruct (H [Sample.sched "e2" "rd2" "Reader"]
                (Some {| armauthorization.ID := Some "e3";
                         armauthorization.Properties := Some {|
                           armauthorization.ExpandedProps := Some {|
                             armauthorization.RoleDefinition :=
                               Some {| armauthorization.DisplayName := None |} |};
                           armauthorization.RoleDefinitionID := Some "rd3" |} |})
                [Sample.sched "e4" "rd4" "Owner"]) as (_ & _ & Hrun);
      [reflexivity | reflexivity | reflexivity |].
    rewrite Hrun. vm_compute. reflexivity.
  - destruct (roleEligibilitySchedules_partial_on_error
                (Sample.world Sample.subscriptions Sample.failingSchedules)
                Sample.session "subscriptions/sub-1"
                [PageOk [Sample.sched "e1" "rd1" "Contributor"]]
                [PageOk [Sample.sched "e2" "rd2" "Reader"]]
                eq_refl eq_refl) as [_ H].
    destruct (H (sdk_error "context deadline exceeded")) as (_ & _ & Hrun);
      [reflexivity|].
    rewrite Hrun. vm_compute. reflexivity.
Defined.

(** Whatever the outcome of [roleEligibilitySchedules], every record of the
    map it returns is a listed, non-nil record whose nested role definition
    carries the display name the record is bound to. *)
Theorem roleEligibilitySchedules_records (w : World) (s : Session)
    (scope name : string) (re : option armauthorization.RoleEligibilitySchedule) :
  (result (roleEligibilitySchedules w s scope)).1 !! name = Some re →
  re ∈ entries (ListForScope w scope) ∧
  ∃ r p ep rd,
    re = Some r ∧
    armauthorization.Properties r = Some p ∧
    armauthorization.ExpandedProps p = Some ep ∧
    armauthorization.RoleDefinition ep = Some rd ∧
    armauthorization.DisplayName rd = Some name.
Proof.
  unfold result. rewrite roleEligibilitySchedules_aggregate.
  destruct (NewRoleEligibilitySchedulesClient w); cbn [fst snd];
    [by rewrite lookup_empty|].
  intros [Hm|(v & Hin & Hv)]%aggregate_pages_origin; [by rewrite lookup_empty in Hm|].
  destruct v as [[id [[[[[[[name'|]]|]]|] rd]|]]|]; simpl in Hv; try done.
  injection Hv as -> <-. split; [done|].
  eexists _, _, _, _. repeat split; done.
Qed.

Lemma roleEligibilitySchedules_records_witness :
  Sample.sched "e2" "rd2" "Reader" ∈ entries (ListForScope Sample.w "subscriptions/sub-1") ∧
  ∃ r p ep rd,
    Sample.sched "e2" "rd2" "Reader" = Some r ∧
    armauthorization.Properties r = Some p ∧
    armauthorization.ExpandedProps p = Some ep ∧
    armauthorization.RoleDefinition ep = Some rd ∧
    armauthorization.DisplayName rd = Some "Reader".
Proof.
  apply (roleEligibilitySchedules_records Sample.w Sample.session
           "subscriptions/sub-1" "Reader").
  vm_compute. reflexivity.
Defined.

(** A schedule record [ActiveRoleAssignment] finds in the listing and turns
    down lacks its identifier or its role-definition identifier: the links of
    the expanded-properties path were already checked by the listing. *)
Theorem ActiveRoleAssignment_rejects_only_missing_ids (w : World) (s : Session)
    (scope name : string) (re : option armauthorization.RoleEligibilitySchedule) :
  (result (roleEligibilitySchedules w s scope)).1 !! name = Some re →
  lacksRequiredField re →
  ∃ r p,
    re = Some r ∧ armauthorization.Properties r = Some p ∧
    (armauthorization.ID r = None ∨ armauthorization.RoleDefinitionID p = None).
Proof.
  intros Hre%roleEligibilitySchedules_checked Hlacks.
  destruct re as [[id [[[[[[[name'|]]|]]|] rd]|]]|]; simpl in *; try done.
  eexists _, _. split; [done|]. split; [done|]. simpl.
  destruct Hlacks as [?|[?|?]]; [by left | by right | done].
Qed.

Lemma ActiveRoleAssignment_rejects_only_missing_ids_witness :
  ∃ r p,
    Sample.schedNoID "rd2" "Reader" = Some r ∧
    armauthorization.Properties r = Some p ∧
    (armauthorization.ID r = None ∨ armauthorization.RoleDefinitionID p = None).
Proof.
  apply (ActiveRoleAssignment_rejects_only_missing_ids
           (Sample.world Sample.subscriptions Sample.schedulesNoID) Sample.session
           "subscriptions/sub-1" "Reader").
  - vm_compute. reflexivity.
  - simpl. left. reflexivity.
Defined.

(** ** Errors of the listings, as the operations pass them on *)

(** [RolesForSubscription] returns an error of either listing as it is, with
    an empty list: the partial map a listing hands back with its error is
    dropped.  After a failed subscription listing no schedule call is made. *)
Theorem RolesForSubscription_errors (w : World) (s : Session)
    (subscriptionName : string) (subs : gmap string subscriptionID)
    (e1 : option error) (t1 : list Event) :
  Subscriptions w s = (subs, e1, t1) →
  (∀ err, e1 = Some err →
     RolesForSubscription w s subscriptionName = ([], Some err, t1) ∧
     Forall (λ e, isSchedulesCall e = false) t1) ∧
  (∀ id res err t2,
     e1 = None →
     subs !! subscriptionName = Some id →
     roleEligibilitySchedules w s ("/subscriptions/" +:+ id) = (res, Some err, t2) →
     RolesForSubscription w s subscriptionName = ([], Some err, t1 ++ t2)).
Proof.
  intros Hsubs. unfold RolesForSubscription. rewrite bind_run, Hsubs.
  cbn [fst snd]. split.
  - intros err ->. cbn [fst snd]. rewrite app_nil_r. split; [done|].
    pose proof (Subscriptions_trace_local w s) as Ht.
    unfold trace in Ht. rewrite Hsubs in Ht.
    eapply Forall_impl; [exact Ht|]. by intros e [? _].
  - intros id res err t2 -> -> Hres. rewrite bind_run, Hres. cbn [fst snd].
    by rewrite app_nil_r.
Qed.

Lemma RolesForSubscription_errors_witness :
  (RolesForSubscription (Sample.world Sample.brokenSubscriptions Sample.schedules)
                        Sample.session "Prod" =
     ([], Some DataIntegrityError,
      [SubscriptionsNextPage; SubscriptionsNextPage])) ∧
  RolesForSubscription (Sample.world Sample.subscriptions Sample.failingSchedules)
                       Sample.session "Prod" =
    ([], Some (sdk_error "context deadline exceeded"),
     trace (Subscriptions Sample.w Sample.session) ++
     [NewListForScopePager "/subscriptions/sub-1";
      SchedulesNextPage "/subscriptions/sub-1";
      SchedulesNextPage "/subscriptions/sub-1"]).
Proof.
  split.
  - destruct (RolesForSubscription_errors
                (Sample.world Sample.brokenSubscriptions Sample.schedules)
                Sample.session "Prod"
                {[ "Prod" := "sub-1"; "Dev" := "sub-3" ]} (Some DataIntegrityError)
                [SubscriptionsNextPage; SubscriptionsNextPage]) as [H _];
      [vm_compute; reflexivity|].
    apply (H DataIntegrityError). reflexivity.
  - destruct (RolesForSubscription_errors
                (Sample.world Sample.subscriptions Sample.failingSchedules)
                Sample.session "Prod"
                (result (Subscriptions Sample.w Sample.session)).1 None
                (trace (Subscriptions Sample.w Sample.session))) as [_ H];
      [vm_compute; reflexivity|].
    apply (H "sub-1" {[ "Contributor" := Sample.sched "e1" "rd1" "Contributor" ]});
      vm_compute; reflexivity.
Defined.

(** [ActiveRoleAssignment] returns an error of either listing as it is.
    After a failed subscription listing no schedule call is made, and in
    neither case is a create request issued. *)
Theorem ActiveRoleAssignment_listing_errors (w : World) (s : Session)
    (subscriptionName roleDisplayName justifiction : string) (duration : Duration)
    (subs : gmap string subscriptionID) (e1 : option error) (t1 : list Event) :
  Subscriptions w s = (subs, e1, t1) →
  (∀ err, e1 = Some err →
     ActiveRoleAssignment w s subscriptionName roleDisplayName justifiction duration =
       (Some err, t1) ∧
     Forall (λ e, isSchedulesCall e = false ∧ isCreate e = false) t1) ∧
  (∀ id res err t2,
     e1 = None →
     subs !! subscriptionName = Some id →
     roleEligibilitySchedules w s ("subscriptions/" +:+ id) = (res, Some err, t2) →
     ActiveRoleAssignment w s subscriptionName roleDisplayName justifiction duration =
       (Some err, t1 ++ t2) ∧
     Forall (λ e, isCreate e = false) (t1 ++ t2)).
Proof.
  intros Hsubs. unfold ActiveRoleAssignment. rewrite bind_run, Hsubs.
  cbn [fst snd]. split.
  - intros err ->. cbn [fst snd]. rewrite app_nil_r. split; [done|].
    pose proof (Subscriptions_trace_local w s) as Ht.
    unfold trace in Ht. by rewrite Hsubs in Ht.
  - intros id res err t2 -> Hsub Hres. rewrite Hsub, bind_run, Hres. cbn [fst snd].
    rewrite app_nil_r. split; [done|]. by eapply listings_no_create.
Qed.

Lemma ActiveRoleAssignment_listing_errors_witness :
  (ActiveRoleAssignment (Sample.world Sample.failingSubscriptions Sample.schedules)
                        Sample.session "Prod" "Reader" "on-call" (90 * Minute) =
     (Some (sdk_error "context deadline exceeded"),
      [SubscriptionsNextPage; SubscriptionsNextPage])) ∧
  ActiveRoleAssignment (Sample.world Sample.subscriptions Sample.brokenSchedules)
                       Sample.session "Prod" "Reader" "on-call" (90 * Minute) =
    (Some DataIntegrityError,
     trace (Subscriptions Sample.w Sample.session) ++
     [NewListForScopePager "subscriptions/sub-1";
      SchedulesNextPage "subscriptions/sub-1";
      SchedulesNextPage "subscriptions/sub-1"]).
Proof.
  split.
  - destruct (ActiveRoleAssignment_listing_errors
                (Sample.world Sample.failingSubscriptions Sample.schedules)
                Sample.session "Prod" "Reader" "on-call" (90 * Minute)
                {[ "Prod" := "sub-1" ]} (Some (sdk_error "context deadline exceeded"))
                [SubscriptionsNextPage; SubscriptionsNextPage]) as [H _];
      [vm_compute; reflexivity|].
    apply (H (sdk_error "context deadline exceeded")). reflexivity.
  - destruct (ActiveRoleAssignment_listing_errors
                (Sample.world Sample.subscriptions Sample.brokenSchedules)
                Sample.session "Prod" "Reader" "on-call" (90 * Minute)
                (result (Subscriptions Sample.w Sample.session)).1 None
                (trace (Subscriptions Sample.w Sample.session))) as [_ H];
      [vm_compute; reflexivity|].
    apply (H "sub-1"
             {[ "Contributor" := Sample.sched "e1" "rd1" "Contributor";
                "Reader" := Sample.sched "e2" "rd2" "Reader" ]});
      vm_compute; reflexivity.
Defined.

(** ** The create request *)

Lemma creates_app (t1 t2 : list Event) : creates (t1 ++ t2) = creates t1 ++ creates t2.
Proof. unfold creates. apply filter_app. Qed.

Lemma creates_none (t : list Event) :
  Forall (λ e, isCreate e = false) t → creates t = [].
Proof.
  induction 1 as [|e t He _ IH]; [done|].
  unfold creates in *. rewrite filter_cons_False; [done|]. by rewrite He.
Qed.

(** Every run of [ActiveRoleAssignment] is one of two: it ends with an error
    before any create request, or it issues one create request, for the
    request it built, and returns what that call returned. *)
Lemma ActiveRoleAssignment_cases (w : World) (s : Session)
    (subscriptionName roleDisplayName justifiction : string) (duration : Duration) :
  let run := ActiveRoleAssignment w s subscriptionName roleDisplayName
                                  justifiction duration in
  (creates (trace run) = [] ∧ is_Some (result run)) ∨
  (∃ id reID rdID guid,
     let scope := "/subscriptions/" +:+ id in
     let req := buildRequest s (Some reID) (Some rdID) justifiction duration (Now w) in
     (result (Subscriptions w s)).1 !! subscriptionName = Some id ∧
     NewUUID w = inr guid ∧
     creates (trace run) = [Create scope guid req] ∧
     result run = match CreateResult w scope guid req with
                  | inl err => Some err
                  | inr _ => None
                  end).
Proof.
  intros run. subst run. unfold trace, result, ActiveRoleAssignment.
  rewrite bind_run.
  pose proof (Subscriptions_trace_local w s) as Ht1. unfold trace in Ht1.
  destruct (Subscriptions w s) as [[subs e1] t1]. cbn [fst snd] in *.
  assert (creates t1 = []) as Hc1.
  { apply creates_none. eapply Forall_impl; [exact Ht1|]. by intros e [_ ?]. }
  rewrite creates_app, Hc1, app_nil_l.
  destruct e1 as [err|]; [left; split; [done|eauto]|].
  destruct (subs !! subscriptionName) as [id|] eqn:Hid; [|left; split; [done|eauto]].
  rewrite bind_run.
  pose proof (roleEligibilitySchedules_trace_no_create w s ("subscriptions/" +:+ id))
    as Ht2. unfold trace in Ht2.
  destruct (roleEligibilitySchedules w s _) as [[res e2] t2]. cbn [fst snd] in *.
  rewrite creates_app, (creates_none t2 Ht2), app_nil_l.
  destruct e2 as [err|]; [left; split; [done|eauto]|].
  destruct (res !! roleDisplayName) as [re|]; [|left; split; [done|eauto]].
  destruct re as [[[i|] [[[[[rdef|]]|] [rd|]]|]]|]; try (left; split; [done|eauto]).
  cbn iota beta.
  destruct (NewUUID w) as [err|guid] eqn:Huuid; [left; split; [done|eauto]|].
  destruct (NewRoleAssignmentScheduleRequestsClient w);
    [left; split; [done|eauto]|].
  right. exists id, i, rd, guid. cbn zeta. rewrite emit_run. cbn [fst snd].
  split; [done|]. split; [done|].
  destruct (CreateResult w _ _ _) as [err|resp]; [done|].
  destruct (armauthorization.MarshalIndent resp); [rewrite emit_run|]; done.
Qed.

(** No run of [ActiveRoleAssignment] issues more than one create request. *)
Theorem ActiveRoleAssignment_at_most_one_create (w : World) (s : Session)
    (subscriptionName roleDisplayName justifiction : string) (duration : Duration) :
  (length (creates (trace (ActiveRoleAssignment w s subscriptionName roleDisplayName
                                               justifiction duration))) <= 1)%nat.
Proof.
  destruct (ActiveRoleAssignment_cases w s subscriptionName roleDisplayName
              justifiction duration) as [[-> _]|(id & reID & rdID & guid & H)].
  - simpl. lia.
  - destruct H as (_ & _ & -> & _). simpl. lia.
Qed.

(** [ActiveRoleAssignment] returns without error only when it issued a
    create request, at "/subscriptions/<id>" for the identifier the
    subscription name resolves to, carrying the caller's justification and
    the serialized duration, and the provider accepted it. *)
Theorem ActiveRoleAssignment_success (w : World) (s : Session)
    (subscriptionName roleDisplayName justifiction : string) (duration : Duration) :
  result (ActiveRoleAssignment w s subscriptionName roleDisplayName
                               justifiction duration) = None →
  ∃ id guid req resp,
    (result (Subscriptions w s)).1 !! subscriptionName = Some id ∧
    creates (trace (ActiveRoleAssignment w s subscriptionName roleDisplayName
                                         justifiction duration)) =
      [Create ("/subscriptions/" +:+ id) guid req] ∧
    CreateResult w ("/subscriptions/" +:+ id) guid req = inr resp ∧
    requestDuration req = Some (expirationDuration duration) ∧
    (p ← armauthorization.ReqProperties req ; armauthorization.Justification p) =
      Some justifiction ∧
    (p ← armauthorization.ReqProperties req ; armauthorization.PrincipalID p) =
      Some (principalID s).
Proof.
  intros Hnone.
  destruct (ActiveRoleAssignment_cases w s subscriptionName roleDisplayName
              justifiction duration) as [[_ Hsome]|(id & reID & rdID & guid & H)].
  - rewrite Hnone in Hsome. by destruct Hsome.
  - destruct H as (Hid & _ & Hcreates & Hresult). rewrite Hnone in Hresult.
    destruct (CreateResult w _ _ _) as [err|resp] eqn:Hcreate; [done|].
    eexists id, guid, _, resp. split; [done|]. split; [exact Hcreates|].
    split; [exact Hcreate|]. done.
Qed.

Lemma ActiveRoleAssignment_success_witness :
  ∃ id guid req resp,
    (result (Subscriptions Sample.w Sample.session)).1 !! "Prod" = Some id ∧
    creates (trace (ActiveRoleAssignment Sample.w Sample.session "Prod" "Reader"
                                         "on-call" (90 * Minute))) =
      [Create ("/subscriptions/" +:+ id) guid req] ∧
    CreateResult Sample.w ("/subscriptions/" +:+ id) guid req = inr resp ∧
    requestDuration req = Some (expirationDuration (90 * Minute)) ∧
    (p ← armauthorization.ReqProperties req ; armauthorization.Justification p) =
      Some "on-call" ∧
    (p ← armauthorization.ReqProperties req ; armauthorization.PrincipalID p) =
      Some (principalID Sample.session).
Proof.
  apply (ActiveRoleAssignment_success Sample.w Sample.session "Prod" "Reader"
           "on-call" (90 * Minute)).
  vm_compute. reflexivity.
Defined.

(** When the UUID generator or the construction of the request client
    fails, [ActiveRoleAssignment] returns that error and issues no create
    request. *)
Theorem ActiveRoleAssignment_no_create_without_uuid_or_client (w : World)
    (s : Session) (subscriptionName roleDisplayName justifiction : string)
    (duration : Duration) (err : error) :
  NewUUID w = inl err ∨
    (NewRoleAssignmentScheduleRequestsClient w = Some err ∧ ∃ guid, NewUUID w = inr guid) →
  creates (trace (ActiveRoleAssignment w s subscriptionName roleDisplayName
                                       justifiction duration)) = [] ∧
  ∀ subs t1 id res t2 re reID props rdID,
    Subscriptions w s = (subs, None, t1) →
    subs !! subscriptionName = Some id →
    roleEligibilitySchedules w s ("subscriptions/" +:+ id) = (res, None, t2) →
    res !! roleDisplayName = Some (Some re) →
    armauthorization.ID re = Some reID →
    armauthorization.Properties re = Some props →
    armauthorization.RoleDefinitionID props = Some rdID →
    ActiveRoleAssignment w s subscriptionName roleDisplayName justifiction duration =
      (Some err, t1 ++ t2).
Proof.
  intros Hfail. split.
  - destruct (ActiveRoleAssignment_cases w s subscriptionName roleDisplayName
                justifiction duration) as [[-> _]|(id & reID & rdID & guid & H)];
      [done|].
    exfalso. destruct H as (_ & Huuid & Hcreates & _).
    destruct Hfail as [Hf|[Hclient _]]; [congruence|].
    revert Hcreates. unfold trace, ActiveRoleAssignment. rewrite bind_run.
    pose proof (Subscriptions_trace_local w s) as Ht1. unfold trace in Ht1.
    destruct (Subscriptions w s) as [[subs e1] t1]. cbn [fst snd] in *.
    assert (creates t1 = []) as Hc1.
    { apply creates_none. eapply Forall_impl; [exact Ht1|]. by intros e [_ ?]. }
    rewrite creates_app, Hc1, app_nil_l.
    destruct e1; [done|]. destruct (subs !! subscriptionName) as [id'|]; [|done].
    rewrite bind_run.
    pose proof (roleEligibilitySchedules_trace_no_create w s ("subscriptions/" +:+ id'))
      as Ht2. unfold trace in Ht2.
    destruct (roleEligibilitySchedules w s _) as [[res e2] t2]. cbn [fst snd] in *.
    rewrite creates_app, (creates_none t2 Ht2), app_nil_l.
    destruct e2; [done|]. destruct (res !! roleDisplayName) as [re|]; [|done].
    destruct re as [[[i|] [[[[[rdef|]]|] [rd|]]|]]|]; try done.
    cbn iota beta. rewrite Huuid, Hclient. done.
  - intros subs t1 id res t2 re reID props rdID Hsubs Hsub Hres Hrole HID Hprops Hrd.
    pose proof (roleEligibilitySchedules_checked w s ("subscriptions/" +:+ id)
                  roleDisplayName (Some re)) as Hchecked.
    unfold result in Hchecked. rewrite Hres in Hchecked. specialize (Hchecked Hrole).
    destruct re as [i [[[[[[[name|]]|]]|] rd]|]]; simpl in *; try done.
    injection Hprops as <-. simpl in Hrd. subst i rd.
    unfold ActiveRoleAssignment.
    rewrite bind_run, Hsubs. cbn [fst snd].
    rewrite Hsub, bind_run, Hres. cbn [fst snd]. rewrite Hrole. cbn iota beta.
    destruct Hfail as [->|[-> [guid ->]]]; cbn [fst snd]; by rewrite app_nil_r.
Qed.

Lemma ActiveRoleAssignment_no_create_without_uuid_or_client_witness :
  creates (trace (ActiveRoleAssignment Sample.noUUID Sample.session "Prod" "Reader"
                                       "on-call" (90 * Minute))) = [].
Proof.
  apply (ActiveRoleAssignment_no_create_without_uuid_or_client
           Sample.noUUID Sample.session "Prod" "Reader" "on-call" (90 * Minute)
           (sdk_error "uuid: clock sequence unavailable")).
  left. reflexivity.
Defined.

(** [RolesForSubscription] only reads: whatever the provider answers, its
    trace holds no create request. *)
Theorem RolesForSubscription_read_only (w : World) (s : Session)
    (subscriptionName : string) :
  creates (trace (RolesForSubscription w s subscriptionName)) = [].
Proof.
  unfold trace, RolesForSubscription. rewrite bind_run.
  pose proof (Subscriptions_trace_local w s) as Ht1. unfold trace in Ht1.
  destruct (Subscriptions w s) as [[subs e1] t1]. cbn [fst snd] in *.
  assert (creates t1 = []) as Hc1.
  { apply creates_none. eapply Forall_impl; [exact Ht1|]. by intros e [_ ?]. }
  rewrite creates_app, Hc1, app_nil_l.
  destruct e1; [done|]. destruct (subs !! subscriptionName) as [id|]; [|done].
  rewrite bind_run.
  pose proof (roleEligibilitySchedules_trace_no_create w s ("/subscriptions/" +:+ id))
    as Ht2. unfold trace in Ht2.
  destruct (roleEligibilitySchedules w s _) as [[res e2] t2]. cbn [fst snd] in *.
  rewrite creates_app, (creates_none t2 Ht2), app_nil_l.
  by destruct e2.
Qed.

(** ** Page fetches *)






(** ** The scope and the result of the schedule listing *)

Lemma aggregate_pages_result_event {A V} (classify : option A → Entry V)
    (warning : string → string) (ev ev' : Event) (pager : Pager A)
    (m : gmap string V) :
  (aggregate_pages classify warning ev pager m).1 =
  (aggregate_pages classify warning ev' pager m).1.
Proof.
  revert m. induction pager as [|p pager IH]; intros m; [done|].
  rewrite !aggregate_pages_cons. destruct p as [Value|err]; [|done].
  cbn zeta. destruct (aggregate_range classify warning Value m) as [[m' e] t].
  cbn [fst snd]. destruct e; [done|]. cbn [fst snd]. apply IH.
Qed.

(** The scope matters to [roleEligibilitySchedules] only through the pages
    the provider returns for it.  So when the provider answers
    "/subscriptions/<id>" and "subscriptions/<id>" alike, a role that
    [RolesForSubscription] does not list makes [ActiveRoleAssignment] fail
    with RoleNotFound, and a role it lists is found by
    [ActiveRoleAssignment]'s own listing. *)
Theorem listed_roles_are_the_resolvable_ones (w : World) (s : Session)
    (subscriptionName roleDisplayName justifiction : string) (duration : Duration)
    (subs : gmap string subscriptionID) (t1 t : list Event) (id : subscriptionID)
    (roles : list string) :
  Subscriptions w s = (subs, None, t1) →
  subs !! subscriptionName = Some id →
  ListForScope w ("/subscriptions/" +:+ id) = ListForScope w ("subscriptions/" +:+ id) →
  RolesForSubscription w s subscriptionName = (roles, None, t) →
  result (roleEligibilitySchedules w s ("/subscriptions/" +:+ id)) =
    result (roleEligibilitySchedules w s ("subscriptions/" +:+ id)) ∧
  (roleDisplayName ∈ roles ↔
     is_Some ((result (roleEligibilitySchedules w s ("subscriptions/" +:+ id))).1
                !! roleDisplayName)) ∧
  (roleDisplayName ∉ roles →
     result (ActiveRoleAssignment w s subscriptionName roleDisplayName
                                  justifiction duration) = Some RoleNotFound).
Proof.
  intros Hsubs Hsub Hpages Hroles.
  assert (result (roleEligibilitySchedules w s ("/subscriptions/" +:+ id)) =
          result (roleEligibilitySchedules w s ("subscriptions/" +:+ id))) as Hsame.
  { unfold result. rewrite !roleEligibilitySchedules_aggregate.
    destruct (NewRoleEligibilitySchedulesClient w); [done|]. cbn [fst snd].
    rewrite Hpages. apply aggregate_pages_result_event. }
  split; [done|].
  revert Hroles. unfold RolesForSubscription. rewrite bind_run, Hsubs.
  cbn [fst snd]. rewrite Hsub, bind_run. unfold result in Hsame.
  destruct (roleEligibilitySchedules w s ("/subscriptions/" +:+ id))
    as [[res e] t2] eqn:Hres.
  destruct (roleEligibilitySchedules w s ("subscriptions/" +:+ id))
    as [[res' e'] t2'] eqn:Hres'.
  cbn [fst snd] in *. injection Hsame as <- <-.
  destruct e as [err|]; [done|]. cbn [fst snd]. intros [= <- _].
  destruct (range_keys_spec (rangeSeed w) res) as [_ Hkeys].
  split; [apply Hkeys|].
  intros Hnot. unfold result, ActiveRoleAssignment.
  rewrite bind_run, Hsubs. cbn [fst snd]. rewrite Hsub, bind_run, Hres'.
  cbn [fst snd].
  destruct (res !! roleDisplayName) as [re|] eqn:Hrole; [|done].
  destruct Hnot. apply Hkeys. eauto.
Qed.

Lemma listed_roles_are_the_resolvable_ones_witness :
  result (ActiveRoleAssignment Sample.w Sample.session "Prod" "Owner" "on-call"
                               (90 * Minute)) = Some RoleNotFound.
Proof.
  destruct (listed_roles_are_the_resolvable_ones Sample.w Sample.session
              "Prod" "Owner" "on-call" (90 * Minute)
              (result (Subscriptions Sample.w Sample.session)).1
              (trace (Subscriptions Sample.w Sample.session))
              (trace (RolesForSubscription Sample.w Sample.session "Prod"))
              "sub-1"
              (result (RolesForSubscription Sample.w Sample.session "Prod")).1)
    as (_ & _ & H); [vm_compute; reflexivity..|].
  apply H. vm_compute. intros Hin.
  apply elem_of_cons in Hin as [Hin|Hin]; [discriminate Hin|].
  apply elem_of_cons in Hin as [Hin|Hin]; [discriminate Hin|].
  by apply elem_of_nil in Hin.
Defined.

(** ** Short durations *)

(** A duration of less than a minute in either direction, zero included, is
    serialized as "PT0M". *)
Theorem expirationDuration_below_a_minute (d : Duration) :
  - Minute < d < Minute → expirationDuration d = "PT0M".
Proof.
  intros Hd. unfold expirationDuration.
  rewrite Minutes_truncates by (change Minute with 60000000000 in *; lia).
  assert (Z.quot d Minute = 0) as ->; [|done].
  apply Z.quot_small_iff; [done|].
  change Minute with 60000000000 in *. lia.
Qed.

Lemma expirationDuration_below_a_minute_witness :
  expirationDuration (- (30 * Second)) = "PT0M".
Proof.
  apply (expirationDuration_below_a_minute (- (30 * Second))).
  vm_compute. split; reflexivity.
Defined.

(** ** The commands *)

Lemma NewSession_ok (w : World) (principalID : string) :
  NewDefaultAzureCredential w = None →
  NewSession w principalID =
    (Some {| timeout := defaultTimeout; principalID := principalID |}, None).
Proof. intros H. unfold NewSession. by rewrite H. Qed.

(** [activate] checks its input before anything else: without the [userid]
    flag it fails with "userid flag not set", whatever the arguments; with
    the flag but fewer than three arguments it fails with "not enough
    arguments".  In both cases nothing has left the process. *)
Theorem activateAction_guards (w : World) (ParseDuration : string → error + Duration)
    (c : cli.Context) :
  (cli.userid c = "" →
     cli.activateAction w ParseDuration c = (Some cli.UseridNotSet, [])) ∧
  (cli.userid c ≠ "" → (length (cli.Args c) < 3)%nat →
     cli.activateAction w ParseDuration c = (Some cli.NotEnoughArguments, [])).
Proof.
  unfold cli.activateAction, cli.Len. split.
  - intros ->. done.
  - intros Hu Hlen. rewrite bool_decide_eq_false_2 by done.
    rewrite bool_decide_eq_true_2 by lia. done.
Qed.

Lemma activateAction_guards_witness :
  cli.activateAction Sample.w Sample.parseDuration
    {| cli.userid := ""; cli.Args := ["Prod"; "Reader"; "on-call"] |} =
    (Some cli.UseridNotSet, []) ∧
  cli.activateAction Sample.w Sample.parseDuration
    {| cli.userid := "principal-0"; cli.Args := ["Prod"; "Reader"] |} =
    (Some cli.NotEnoughArguments, []).
Proof.
  split.
  - apply (activateAction_guards Sample.w Sample.parseDuration
             {| cli.userid := ""; cli.Args := ["Prod"; "Reader"; "on-call"] |}).
    reflexivity.
  - apply (activateAction_guards Sample.w Sample.parseDuration
             {| cli.userid := "principal-0"; cli.Args := ["Prod"; "Reader"] |}).
    + discriminate.
    + simpl. lia.
Defined.

(** With the flag, three arguments and a credential, [activate] without a
    fourth argument (or with an empty one) activates for 60 minutes on behalf
    of the principal given by the flag: every create request it issues
    carries the duration "PT60M" and that principal. *)
Theorem activateAction_default_duration (w : World)
    (ParseDuration : string → error + Duration) (c : cli.Context) :
  cli.userid c ≠ "" →
  (3 <= length (cli.Args c))%nat →
  NewDefaultAzureCredential w = None →
  cli.Get (cli.Args c) 3 = "" →
  cli.activateAction w ParseDuration c =
    ActiveRoleAssignment w {| timeout := defaultTimeout; principalID := cli.userid c |}
      (cli.Get (cli.Args c) 0) (cli.Get (cli.Args c) 1) (cli.Get (cli.Args c) 2)
      (60 * Minute) ∧
  ∀ scope guid req,
    Create scope guid req ∈ trace (cli.activateAction w ParseDuration c) →
    requestDuration req = Some "PT60M" ∧
    (p ← armauthorization.ReqProperties req ; armauthorization.PrincipalID p) =
      Some (cli.userid c).
Proof.
  intros Hu Hlen Hcred Harg.
  assert (cli.activateAction w ParseDuration c =
          ActiveRoleAssignment w
            {| timeout := defaultTimeout; principalID := cli.userid c |}
            (cli.Get (cli.Args c) 0) (cli.Get (cli.Args c) 1)
            (cli.Get (cli.Args c) 2) (60 * Minute)) as Hrun.
  { unfold cli.activateAction, cli.Len.
    rewrite bool_decide_eq_false_2 by done.
    rewrite bool_decide_eq_false_2 by lia.
    rewrite NewSession_ok by done. rewrite Harg. done. }
  split; [done|]. rewrite Hrun. intros scope guid req Hin.
  assert (Create scope guid req ∈
            creates (trace (ActiveRoleAssignment w
              {| timeout := defaultTimeout; principalID := cli.userid c |}
              (cli.Get (cli.Args c) 0) (cli.Get (cli.Args c) 1)
              (cli.Get (cli.Args c) 2) (60 * Minute)))) as Hc.
  { unfold creates. by apply list_elem_of_filter. }
  destruct (ActiveRoleAssignment_cases w
              {| timeout := defaultTimeout; principalID := cli.userid c |}
              (cli.Get (cli.Args c) 0) (cli.Get (cli.Args c) 1)
              (cli.Get (cli.Args c) 2) (60 * Minute))
    as [[Hnone _]|(id & reID & rdID & guid' & _ & _ & Hone & _)].
  - rewrite Hnone in Hc. by apply elem_of_nil in Hc.
  - rewrite Hone in Hc. apply list_elem_of_singleton in Hc.
    injection Hc as -> -> ->. done.
Qed.

Lemma activateAction_default_duration_witness :
  cli.activateAction Sample.w Sample.parseDuration
    {| cli.userid := "principal-0"; cli.Args := ["Prod"; "Reader"; "on-call"] |} =
  ActiveRoleAssignment Sample.w Sample.session "Prod" "Reader" "on-call" (60 * Minute).
Proof.
  apply (activateAction_default_duration Sample.w Sample.parseDuration
           {| cli.userid := "principal-0"; cli.Args := ["Prod"; "Reader"; "on-call"] |}).
  - discriminate.
  - simpl. lia.
  - reflexivity.
  - reflexivity.
Defined.

(** With the flag, three arguments and a credential, a non-empty fourth
    argument of [activate] is parsed as the duration: when the parse fails,
    that error is returned before any listing or create request; when it
    succeeds, the role is activated for the parsed duration. *)
Theorem activateAction_duration_argument (w : World)
    (ParseDuration : string → error + Duration) (c : cli.Context) :
  cli.userid c ≠ "" →
  (3 <= length (cli.Args c))%nat →
  NewDefaultAzureCredential w = None →
  cli.Get (cli.Args c) 3 ≠ "" →
  (∀ err, ParseDuration (cli.Get (cli.Args c) 3) = inl err →
     cli.activateAction w ParseDuration c = (Some err, [])) ∧
  (∀ d, ParseDuration (cli.Get (cli.Args c) 3) = inr d →
     cli.activateAction w ParseDuration c =
       ActiveRoleAssignment w
         {| timeout := defaultTimeout; principalID := cli.userid c |}
         (cli.Get (cli.Args c) 0) (cli.Get (cli.Args c) 1) (cli.Get (cli.Args c) 2) d).
Proof.
  intros Hu Hlen Hcred Harg.
  unfold cli.activateAction, cli.Len.
  rewrite bool_decide_eq_false_2 by done.
  rewrite bool_decide_eq_false_2 by lia.
  rewrite NewSession_ok by done.
  rewrite bool_decide_eq_true_2 by done.
  split; [intros err -> | intros d ->]; done.
Qed.

Lemma activateAction_duration_argument_witness :
  cli.activateAction Sample.w Sample.rejectDuration
    {| cli.userid := "principal-0"; cli.Args := ["Prod"; "Reader"; "on-call"; "soon"] |} =
    (Some (sdk_error "time: invalid duration soon"), []) ∧
  cli.activateAction Sample.w Sample.parseDuration
    {| cli.userid := "principal-0"; cli.Args := ["Prod"; "Reader"; "on-call"; "90m"] |} =
    ActiveRoleAssignment Sample.w Sample.session "Prod" "Reader" "on-call" (90 * Minute).
Proof.
  split.
  - destruct (activateAction_duration_argument Sample.w Sample.rejectDuration
                {| cli.userid := "principal-0";
                   cli.Args := ["Prod"; "Reader"; "on-call"; "soon"] |}) as [H _];
      [discriminate | simpl; lia | reflexivity | discriminate |].
    apply H. reflexivity.
  - destruct (activateAction_duration_argument Sample.w Sample.parseDuration
                {| cli.userid := "principal-0";
                   cli.Args := ["Prod"; "Reader"; "on-call"; "90m"] |}) as [_ H];
      [discriminate | simpl; lia | reflexivity | discriminate |].
    apply (H (90 * Minute)). reflexivity.
Defined.

(** Without a usable credential every command returns the credential error,
    prints nothing and makes no call ([activate] once its own checks have
    passed). *)
Theorem actions_without_credential (w : World)
    (ParseDuration : string → error + Duration) (c : cli.Context) (err : error) :
  NewDefaultAzureCredential w = Some err →
  cli.subscriptionsAction w c = ([], Some err, []) ∧
  cli.rolesAction w c = ([], Some err, []) ∧
  (cli.userid c ≠ "" → (3 <= length (cli.Args c))%nat →
     cli.activateAction w ParseDuration c = (Some err, [])).
Proof.
  intros Hcred.
  unfold cli.subscriptionsAction, cli.rolesAction, cli.activateAction,
    cli.Len, NewSession.
  rewrite Hcred. split; [done|]. split; [done|]. intros Hu Hlen.
  rewrite bool_decide_eq_false_2 by done.
  rewrite bool_decide_eq_false_2 by lia. done.
Qed.

Lemma actions_without_credential_witness :
  cli.subscriptionsAction Sample.noCredential
    {| cli.userid := "principal-0"; cli.Args := [] |} =
    ([], Some (sdk_error "DefaultAzureCredential: failed to acquire a token"), []).
Proof.
  apply (actions_without_credential Sample.noCredential Sample.parseDuration
           {| cli.userid := "principal-0"; cli.Args := [] |}).
  reflexivity.
Defined.

Lemma named_elem_of {A V} (classify : option A → Entry V) (l : list (option A))
    (v : option A) (k : string) (x : V) :
  v ∈ l → classify v = Named k x → (k, x) ∈ named classify l.
Proof.
  intros Hin Hv. unfold named. apply list_elem_of_omap.
  exists v. by rewrite Hv.
Qed.

(** What [subscriptions] prints: never a name twice, only display names of
    listed entries in the "Enabled" state, nothing at all when it returns an
    error (the partial map of a failed listing is not shown), and, when it
    returns without error, the name of every enabled entry listed. *)
Theorem subscriptionsAction_output (w : World) (c : cli.Context) :
  let lines := (result (cli.subscriptionsAction w c)).1 in
  let err := (result (cli.subscriptionsAction w c)).2 in
  NoDup lines ∧
  (∀ line, line ∈ lines →
     ∃ v, Some v ∈ entries (NewListPager w) ∧
          armsubscription.DisplayName v = Some line ∧
          armsubscription.State v = Some armsubscription.SubscriptionStateEnabled) ∧
  (err ≠ None → lines = []) ∧
  (err = None →
     ∀ name id,
       Some {| armsubscription.DisplayName := Some name;
               armsubscription.SubscriptionID := Some id;
               armsubscription.State := Some armsubscription.SubscriptionStateEnabled |}
         ∈ entries (NewListPager w) →
       name ∈ lines).
Proof.
  unfold result, cli.subscriptionsAction, NewSession.
  destruct (NewDefaultAzureCredential w) as [e|]; cbn [fst snd].
  { split; [constructor|]. split; [by intros line ?%elem_of_nil|]. done. }
  rewrite bind_run, Subscriptions_aggregate.
  destruct (NewSubscriptionsClient w) as [e|]; cbn [fst snd].
  { split; [constructor|]. split; [by intros line ?%elem_of_nil|]. done. }
  pose proof (aggregate_pages_origin subscriptionEntry subscriptionWarning
                SubscriptionsNextPage (NewListPager w) ∅) as Horigin.
  pose proof (aggregate_pages_no_error subscriptionEntry subscriptionWarning
                SubscriptionsNextPage (NewListPager w) ∅) as Hclean.
  pose proof (aggregate_pages_clean subscriptionEntry subscriptionWarning
                SubscriptionsNextPage logged_nextPage_subscriptions
                (NewListPager w) ∅) as Hres.
  destruct (aggregate_pages _ _ _ _ _) as [[subs e] t]. cbn [fst snd] in *.
  destruct e as [e|]; cbn [fst snd].
  { split; [constructor|]. split; [by intros line ?%elem_of_nil|]. done. }
  destruct (range_keys_spec (rangeSeed w) subs) as [Hnodup Hkeys].
  split; [done|]. split; [|split; [done|]].
  - intros line [id Hid]%Hkeys.
    destruct (Horigin line id Hid) as [Hm|(v & Hin & Hv)]; [by rewrite lookup_empty in Hm|].
    apply subscriptionEntry_Named in Hv as (v' & -> & ? & _ & ?). eauto.
  - intros _ name id Hin. apply Hkeys.
    destruct (Hres (Hclean eq_refl)) as [[= ->] _].
    rewrite firstWins_lookup, lookup_empty. apply first_occurrence_is_Some.
    apply list_elem_of_fmap. exists (name, id). split; [done|].
    eapply named_elem_of; [exact Hin|]. done.
Qed.

Lemma subscriptionsAction_output_witness :
  "Dev" ∈ (result (cli.subscriptionsAction Sample.w
                     {| cli.userid := ""; cli.Args := [] |})).1.
Proof.
  destruct (subscriptionsAction_output Sample.w {| cli.userid := ""; cli.Args := [] |})
    as (_ & _ & _ & H).
  apply (H eq_refl "Dev" "sub-3"). vm_compute.
  do 3 apply list_elem_of_further. apply list_elem_of_here.
Defined.

(** With a credential, [roles] prints exactly what [RolesForSubscription]
    returns for its first argument, and returns its error; without an
    argument it asks for the subscription whose display name is empty, so
    when no such subscription is listed it fails with SubscriptionNotFound
    after the subscription listing alone. *)
Theorem rolesAction_spec (w : World) (c : cli.Context) :
  NewDefaultAzureCredential w = None →
  let s := {| timeout := defaultTimeout; principalID := cli.userid c |} in
  cli.rolesAction w c = RolesForSubscription w s (default "" (head (cli.Args c))) ∧
  (cli.Args c = [] →
     ∀ subs t1,
       Subscriptions w s = (subs, None, t1) → subs !! "" = None →
       cli.rolesAction w c = ([], Some SubscriptionNotFound, t1)).
Proof.
  intros Hcred s.
  assert (cli.Get (cli.Args c) 0 = default "" (head (cli.Args c))) as Hget
    by (unfold cli.Get; by destruct (cli.Args c)).
  assert (cli.rolesAction w c =
          RolesForSubscription w s (default "" (head (cli.Args c)))) as Hrun.
  { unfold cli.rolesAction. rewrite NewSession_ok by done. fold s.
    rewrite Hget, bind_run.
    generalize (default "" (head (cli.Args c))). intros name.
    assert (∀ err, (RolesForSubscription w s name).1.2 = Some err →
                   (RolesForSubscription w s name).1.1 = []) as Hempty.
    { unfold RolesForSubscription. rewrite bind_run.
      destruct (Subscriptions w s) as [[subs [e|]] t1]; cbn [fst snd]; [done|].
      destruct (subs !! name) as [id|]; [|done]. rewrite bind_run.
      by destruct (roleEligibilitySchedules w s _) as [[res [e|]] t2]. }
    destruct (RolesForSubscription w s name) as [[roles [e|]] t]; cbn [fst snd] in *.
    - rewrite (Hempty e eq_refl). by rewrite app_nil_r.
    - by rewrite app_nil_r. }
  split; [done|]. intros Hargs subs t1 Hsubs Hnone.
  rewrite Hrun, Hargs. simpl. unfold RolesForSubscription.
  rewrite bind_run, Hsubs. cbn [fst snd]. rewrite Hnone. cbn [fst snd].
  by rewrite app_nil_r.
Qed.

Lemma rolesAction_spec_witness :
  cli.rolesAction Sample.w {| cli.userid := "principal-0"; cli.Args := [] |} =
    ([], Some SubscriptionNotFound, trace (Subscriptions Sample.w Sample.session)).
Proof.
  destruct (rolesAction_spec Sample.w {| cli.userid := "principal-0"; cli.Args := [] |})
    as [_ H]; [reflexivity|].
  apply (H eq_refl (result (Subscriptions Sample.w Sample.session)).1);
    vm_compute; reflexivity.
Defined.
